(** * Father's Day photo ticker: a shallow embedding of the mosaic core

    The development follows the repository's layout:

    - [Photos]     server/photos.ts : photo analyzer, upload / reindex
                                      batches, atlas builder;
    - [GlyphMap]   src/lib/glyphMap.ts : text mask, Fisher-Yates shuffle,
                                      tile-to-glyph mapper;
    - [PixiTicker] src/lib/pixiTicker.ts : scene construction, hover zoom,
                                      per-frame scroll.

    JavaScript numbers are modelled as exact numbers: integers as [Z],
    everything that can be fractional (luma, saturation, coordinates, time,
    [Math.random()]) as [Q], compared with [==].  Thrown exceptions are the
    [Err] case of [Result].  What the code obtains from outside the
    repository (sharp, node's path and fs modules, the canvas, the clock) is
    a variable of the enclosing section. *)

From Stdlib Require Import Ascii String DecimalString ZArith QArith Qround Qminmax Qabs Lqa Lia.
From stdpp Require Import base list gmap strings.
Import ListNotations.

Local Open Scope Z_scope.

(** ** Exceptions *)

Inductive Result (A : Type) : Type :=
| Ok (a : A)
| Err (message : string).
Arguments Ok {A} a.
Arguments Err {A} message.

(** ** JavaScript's Math on exact numbers *)

(** [Math.round x] is [floor (x + 0.5)]. *)
Definition Math_round (x : Q) : Z := Qfloor (x + (1 # 2)).

(** [a < b] on numbers. *)
Definition Qltb (a b : Q) : bool := negb (Qle_bool b a).

(** [Math.ceil (Math.sqrt n)] for an array length [n]. *)
Definition ceil_sqrt (n : Z) : Z :=
  let s := Z.sqrt n in if s * s =? n then s else s + 1.

(** [Math.ceil (a / b)] for integers [a >= 0] and [b > 0]. *)
Definition ceil_div (a b : Z) : Z := (a + b - 1) / b.

(** * server/photos.ts *)

Module Photos.

Definition VARIANT_SIZES : list Z := [256; 512; 1024].
Definition ATLAS_TILE_SIZE : Z := 128.
Definition ATLAS_MAX_SIZE : Z := 4096.

Record Color := { r : Z; g : Z; b : Z }.

Record PhotoMetadata := {
  filename : string;
  width : Z;
  height : Z;
  fileSize : Z;
  mimeType : string;
  avgColor : Color;
  luma : Q;
  saturation : Q;
}.

(** Perceived brightness (luma) from RGB. *)
Definition calculateLuma (r g b : Q) : Q :=
  ((299 # 1000) * r + (587 # 1000) * g + (114 # 1000) * b)%Q.

(** Colour saturation. *)
Definition calculateSaturation (r g b : Q) : Q :=
  let max := Qmax r (Qmax g b) in
  let min := Qmin r (Qmin g b) in
  let delta := (max - min)%Q in
  if Qeq_bool max 0 then 0%Q else (delta / max)%Q.

(** What [sharp(path)] yields for a decodable file: [metadata()] and the
    per-channel means of [stats()]; [stat(path).size] is kept alongside. *)
Record SharpImage := {
  meta_width : Z;
  meta_height : Z;
  meta_format : string;
  channel_means : list Q;
  stat_size : Z;
}.

Section Analyzer.

(** The image decoder: [Err] with sharp's message when it rejects the file. *)
Variable sharp : string -> Result SharpImage.
(** node's [path.basename] with one argument. *)
Variable basename : string -> string.

Definition analyzeImage (imagePath : string) : Result PhotoMetadata :=
  match sharp imagePath with
  | Err e => Err e
  | Ok image =>
      match channel_means image !! 0%nat,
            channel_means image !! 1%nat,
            channel_means image !! 2%nat with
      | Some m0, Some m1, Some m2 =>
          let avgR := Math_round m0 in
          let avgG := Math_round m1 in
          let avgB := Math_round m2 in
          Ok {| filename := basename imagePath;
                width := meta_width image;
                height := meta_height image;
                fileSize := stat_size image;
                mimeType := String.append "image/" (meta_format image);
                avgColor := {| r := avgR; g := avgG; b := avgB |};
                luma := calculateLuma (inject_Z avgR) (inject_Z avgG) (inject_Z avgB);
                saturation :=
                  calculateSaturation (inject_Z avgR) (inject_Z avgG) (inject_Z avgB) |}
      | _, _, _ => Err "Cannot read properties of undefined (reading 'mean')"
      end
  end.

End Analyzer.

(** ** The store: SQLite tables and the files under the data directory *)

Record PhotoRow := {
  row_id : Z;
  row_original_path : string;
  row_meta : PhotoMetadata;
}.

Record VariantRow := {
  var_photo_id : Z;
  var_size : Z;
  var_format : string;
  var_path : string;
  var_file_size : Z;
}.

Record AtlasTile := {
  tile_id : Z;
  tile_filename : string;
  tile_x : Z;
  tile_y : Z;
  tile_width : Z;
  tile_height : Z;
  tile_avgColor : Color;
  tile_luma : Q;
  tile_saturation : Q;
}.

(** The metadata document written to atlas.json. *)
Record AtlasData := {
  tiles : list AtlasTile;
  atlas_width : Z;
  atlas_height : Z;
  atlas_tileSize : Z;
}.

(** One entry of sharp's [composite] list. *)
Record CompositeInput := { input : string; top : Z; left : Z }.

(** The single row of table [atlas]. *)
Record AtlasRow := {
  json_path : string;
  image_path : string;
  tile_count : Z;
  row_atlas_width : Z;
  row_atlas_height : Z;
}.

Record Store := {
  photos : list PhotoRow;            (* table photos, in rowid order *)
  photos_seq : Z;                    (* AUTOINCREMENT sequence of photos *)
  photo_variants : list VariantRow;  (* table photo_variants *)
  atlas : option AtlasRow;           (* table atlas *)
  files : gset string;               (* paths that exist on disk *)
  atlas_json : option AtlasData;     (* contents of atlas.json *)
  atlas_image : option (Z * Z * list CompositeInput); (* atlas.webp *)
}.

(** Code that reads and writes the store and may throw.  A throw keeps the
    writes made before it. *)
Definition IO (A : Type) : Type := Store -> Result A * Store.

Definition ret {A} (a : A) : IO A := fun s => (Ok a, s).

Definition throw {A} (e : string) : IO A := fun s => (Err e, s).

Definition bind {A B} (m : IO A) (k : A -> IO B) : IO B :=
  fun s => match m s with
           | (Ok a, s') => k a s'
           | (Err e, s') => (Err e, s')
           end.

(** [try { m } catch (error) { h error }] *)
Definition try_catch {A} (m : IO A) (h : string -> IO A) : IO A :=
  fun s => match m s with
           | (Ok a, s') => (Ok a, s')
           | (Err e, s') => h e s'
           end.

Definition lift {A} (x : Result A) : IO A := fun s => (x, s).

Definition get_store : IO Store := fun s => (Ok s, s).

Notation "'do' x <- m ; k" := (bind m (fun x => k))
  (at level 10, x name, m at level 100, k at level 200).

(** [for (const x of xs) { body x }]: the first throw leaves the loop. *)
Fixpoint for_of {A} (xs : list A) (body : A -> IO unit) : IO unit :=
  match xs with
  | [] => ret tt
  | x :: rest => do _ <- body x; for_of rest body
  end.

(** [String.prototype.replace] with a string pattern: the first occurrence. *)
Fixpoint replace_first (pat rep s : string) : string :=
  if String.prefix pat s
  then String.append rep (String.substring (String.length pat)
                                           (String.length s - String.length pat) s)
  else match s with
       | EmptyString => EmptyString
       | String c rest => String c (replace_first pat rep rest)
       end.

(** Decimal rendering of a number in a template string. *)
Definition show_Z (z : Z) : string := NilZero.string_of_int (Z.to_int z).

(** A stable sort: [x] is put before [y] when [before x y].  Used for SQL's
    ORDER BY here and for [Array.prototype.sort] in glyphMap.ts. *)
Fixpoint insert_by {A} (before : A -> A -> bool) (x : A) (l : list A) : list A :=
  match l with
  | [] => [x]
  | y :: l' => if before x y then x :: y :: l' else y :: insert_by before x l'
  end.

Definition sort_by {A} (before : A -> A -> bool) (l : list A) : list A :=
  foldr (insert_by before) [] l.

(** ORDER BY luma DESC, saturation DESC *)
Definition atlas_order (p q : PhotoRow) : bool :=
  match luma (row_meta p) ?= luma (row_meta q) with
  | Gt => true
  | Lt => false
  | Eq => Qle_bool (saturation (row_meta q)) (saturation (row_meta p))
  end%Q.

Definition set_files (s : Store) (fs : gset string) : Store :=
  {| photos := photos s; photos_seq := photos_seq s;
     photo_variants := photo_variants s; atlas := atlas s; files := fs;
     atlas_json := atlas_json s; atlas_image := atlas_image s |}.

(** [writeFile(path, ...)] *)
Definition writeFile (path : string) : IO unit :=
  fun s => (Ok tt, set_files s ({[ path ]} ∪ files s)).

(** INSERT INTO photos: the filename is UNIQUE, the id AUTOINCREMENT. *)
Definition insertPhoto (metadata : PhotoMetadata) (originalPath : string) : IO Z :=
  fun s =>
    if existsb (fun row => String.eqb (filename (row_meta row)) (filename metadata))
               (photos s)
    then (Err "UNIQUE constraint failed: photos.filename", s)
    else
      let id := photos_seq s + 1 in
      (Ok id,
       {| photos := photos s ++ [ {| row_id := id; row_original_path := originalPath;
                                     row_meta := metadata |} ];
          photos_seq := id;
          photo_variants := photo_variants s; atlas := atlas s; files := files s;
          atlas_json := atlas_json s; atlas_image := atlas_image s |}).

(** INSERT INTO photo_variants *)
Definition insertVariant (v : VariantRow) : IO unit :=
  fun s =>
    (Ok tt,
     {| photos := photos s; photos_seq := photos_seq s;
        photo_variants := photo_variants s ++ [v]; atlas := atlas s;
        files := files s; atlas_json := atlas_json s;
        atlas_image := atlas_image s |}).

Record UploadedFile := { originalname : string; path : string }.

Record UploadResult := {
  res_filename : string;
  res_photoId : option Z;
  res_success : bool;
  res_error : option string;
}.

Inductive Body :=
| UploadBody (success : bool) (message : string) (results : list UploadResult)
| MessageBody (success : bool) (message : string)
| ErrorBody (error : string).

Record Response := { status : Z; body : Body }.

Section Server.

Variable sharp : string -> Result SharpImage.
(** node's path module *)
Variable basename : string -> string.
Variable basename_ext : string -> string -> string.
Variable extname : string -> string.
Variable join : list string -> string.
Variable toLowerCase : string -> string.
(** [sharp(path).resize(size, size, cover).<format>().toBuffer()]: the length
    of the encoded buffer, or the encoder's error. *)
Variable encode : string -> Z -> string -> Result Z.
(** [sharp(variantPath).resize(...).toBuffer()] in the atlas builder. *)
Variable resizeTile : string -> Result unit.
Variable readdir : string -> Result (list string).
Variable DATA_DIR : string.

Definition ORIGINAL_DIR : string := join [DATA_DIR; "photos"; "original"].
Definition VARIANTS_DIR : string := join [DATA_DIR; "photos"; "variants"].
Definition ATLAS_DIR : string := join [DATA_DIR; "atlas"].

Definition variantName (filename : string) (size : Z) (ext : string) : string :=
  String.append filename (String.append "_" (String.append (show_Z size) ext)).

(** Generate image variants in different sizes and formats. *)
Definition generateVariants (originalPath : string) (photoId : Z) : IO unit :=
  let filename := basename_ext originalPath (extname originalPath) in
  for_of VARIANT_SIZES (fun size =>
    let avifPath := join [VARIANTS_DIR; variantName filename size ".avif"] in
    do avifBuffer <- lift (encode originalPath size "avif");
    do _ <- writeFile avifPath;
    let webpPath := join [VARIANTS_DIR; variantName filename size ".webp"] in
    do webpBuffer <- lift (encode originalPath size "webp");
    do _ <- writeFile webpPath;
    let jpegPath := join [VARIANTS_DIR; variantName filename size ".jpg"] in
    do jpegBuffer <- lift (encode originalPath size "jpeg");
    do _ <- writeFile jpegPath;
    do _ <- insertVariant {| var_photo_id := photoId; var_size := size;
                             var_format := "avif"; var_path := avifPath;
                             var_file_size := avifBuffer |};
    do _ <- insertVariant {| var_photo_id := photoId; var_size := size;
                             var_format := "webp"; var_path := webpPath;
                             var_file_size := webpBuffer |};
    insertVariant {| var_photo_id := photoId; var_size := size;
                     var_format := "jpeg"; var_path := jpegPath;
                     var_file_size := jpegBuffer |}).

(** Process an uploaded photo. *)
Definition processPhoto (originalPath : string) : IO Z :=
  do metadata <- lift (analyzeImage sharp basename originalPath);
  do photoId <- insertPhoto metadata originalPath;
  do _ <- generateVariants originalPath photoId;
  ret photoId.

(** The loop of [reindexPhotos], with its counter. *)
Fixpoint reindex_loop (dirFiles : list string) (count : Z) : IO Z :=
  match dirFiles with
  | [] => ret count
  | file :: rest =>
      let ext := toLowerCase (extname file) in
      if negb (existsb (String.eqb ext) [".jpg"; ".jpeg"; ".png"; ".webp"]%string)
      then reindex_loop rest count
      else
        let filePath := join [ORIGINAL_DIR; file] in
        do s <- get_store;
        match find (fun row => String.eqb (filename (row_meta row)) file) (photos s) with
        | Some _ => reindex_loop rest count
        | None => do _ <- processPhoto filePath; reindex_loop rest (count + 1)
        end
  end.

(** Reindex all photos in the directory. *)
Definition reindexPhotos : IO Z :=
  do dirFiles <- lift (readdir ORIGINAL_DIR);
  reindex_loop dirFiles 0.

(** The loop of [handleUpload]: each file in its own try / catch. *)
Fixpoint upload_loop (uploaded : list UploadedFile) (results : list UploadResult)
  : IO (list UploadResult) :=
  match uploaded with
  | [] => ret results
  | file :: rest =>
      do r <- try_catch
                (do photoId <- processPhoto (path file);
                 ret {| res_filename := originalname file; res_photoId := Some photoId;
                        res_success := true; res_error := None |})
                (fun error =>
                 ret {| res_filename := originalname file; res_photoId := None;
                        res_success := false; res_error := Some error |});
      upload_loop rest (results ++ [r])
  end.

(** Handle photo upload endpoint; [req_files] is [None] when the request
    carries no file array. *)
Definition handleUpload (req_files : option (list UploadedFile)) (s : Store)
  : Response * Store :=
  match req_files with
  | None => ({| status := 400; body := ErrorBody "No files uploaded" |}, s)
  | Some uploaded =>
      match upload_loop uploaded [] s with
      | (Ok results, s') =>
          let processed := Z.of_nat (length (filter (fun r => res_success r = true) results)) in
          ({| status := 200;
              body := UploadBody true
                (String.append "Processed "
                   (String.append (show_Z processed)
                      (String.append " of "
                         (String.append (show_Z (Z.of_nat (length uploaded))) " files"))))
                results |}, s')
      | (Err _, s') => ({| status := 500; body := ErrorBody "Upload failed" |}, s')
      end
  end.

(** Handle reindex photos endpoint. *)
Definition handleReindexPhotos (s : Store) : Response * Store :=
  match reindexPhotos s with
  | (Ok count, s') =>
      ({| status := 200;
          body := MessageBody true
            (String.append "Indexed " (String.append (show_Z count) " new photos")) |}, s')
  | (Err e, s') => ({| status := 500; body := ErrorBody e |}, s')
  end.

(** The name under which the atlas builder looks for the 512px variant. *)
Definition variantFilename (filename : string) : string :=
  replace_first (extname filename) "_512.webp" filename.

(** The placement loop of [buildAtlas] from index [i] on. *)
Fixpoint atlas_loop (tilesPerRow : Z) (rows : list PhotoRow) (i : Z)
    (compositeInputs : list CompositeInput) (tiles : list AtlasTile)
  : IO (list CompositeInput * list AtlasTile) :=
  match rows with
  | [] => ret (compositeInputs, tiles)
  | photo :: rest =>
      let row := i / tilesPerRow in
      let col := i mod tilesPerRow in
      let x := col * ATLAS_TILE_SIZE in
      let y := row * ATLAS_TILE_SIZE in
      let variantPath :=
        join [VARIANTS_DIR; variantFilename (filename (row_meta photo))] in
      do s <- get_store;
      if bool_decide (variantPath ∈ files s)
      then
        do _ <- lift (resizeTile variantPath);
        atlas_loop tilesPerRow rest (i + 1)
          (compositeInputs ++ [ {| input := variantPath; top := y; left := x |} ])
          (tiles ++ [ {| tile_id := row_id photo;
                         tile_filename := filename (row_meta photo);
                         tile_x := x; tile_y := y;
                         tile_width := ATLAS_TILE_SIZE;
                         tile_height := ATLAS_TILE_SIZE;
                         tile_avgColor := avgColor (row_meta photo);
                         tile_luma := luma (row_meta photo);
                         tile_saturation := saturation (row_meta photo) |} ])
      else atlas_loop tilesPerRow rest (i + 1) compositeInputs tiles
  end.

(** Writing atlas.webp, atlas.json and the row of table [atlas]. *)
Definition saveAtlas (atlasData : AtlasData) (compositeInputs : list CompositeInput)
    (photoCount : Z) : IO unit :=
  let atlasImagePath := join [ATLAS_DIR; "atlas.webp"] in
  let atlasJsonPath := join [ATLAS_DIR; "atlas.json"] in
  fun s =>
    (Ok tt,
     {| photos := photos s; photos_seq := photos_seq s;
        photo_variants := photo_variants s;
        atlas := Some {| json_path := atlasJsonPath; image_path := atlasImagePath;
                         tile_count := photoCount;
                         row_atlas_width := atlas_width atlasData;
                         row_atlas_height := atlas_height atlasData |};
        files := {[ atlasJsonPath ]} ∪ ({[ atlasImagePath ]} ∪ files s);
        atlas_json := Some atlasData;
        atlas_image := Some (atlas_width atlasData, atlas_height atlasData,
                             compositeInputs) |}).

(** Build texture atlas from photo variants. *)
Definition buildAtlas : IO unit :=
  do s <- get_store;
  let rows := sort_by atlas_order (photos s) in
  if (Z.of_nat (length rows) =? 0)
  then throw "No photos available to build atlas"
  else
    let tilesPerRow := ceil_sqrt (Z.of_nat (length rows)) in
    let atlasWidth := Z.min (tilesPerRow * ATLAS_TILE_SIZE) ATLAS_MAX_SIZE in
    let atlasHeight := ceil_div (Z.of_nat (length rows)) tilesPerRow * ATLAS_TILE_SIZE in
    do placed <- atlas_loop tilesPerRow rows 0 [] [];
    saveAtlas {| tiles := snd placed; atlas_width := atlasWidth;
                 atlas_height := atlasHeight; atlas_tileSize := ATLAS_TILE_SIZE |}
              (fst placed) (Z.of_nat (length rows)).

(** Handle atlas rebuild endpoint. *)
Definition handleRebuildAtlas (s : Store) : Response * Store :=
  match buildAtlas s with
  | (Ok _, s') =>
      ({| status := 200; body := MessageBody true "Atlas rebuilt successfully" |}, s')
  | (Err e, s') => ({| status := 500; body := ErrorBody e |}, s')
  end.

End Server.

(** The reply of the atlas endpoint: the row of table [atlas], or an error
    status with its message. *)
Inductive AtlasReply :=
| AtlasFound (row : AtlasRow)
| AtlasError (status : Z) (error : string).

(** Get atlas data. *)
Definition getAtlas (s : Store) : AtlasReply :=
  match atlas s with
  | None => AtlasError 404 "Atlas not found. Build it first."
  | Some row => AtlasFound row
  end.

End Photos.

(** * src/lib/glyphMap.ts *)

(** The result of [a % n] on array indices: [NaN] when [n] is 0. *)
Inductive JsIndex :=
| Idx (i : Z)
| NaN.

Definition js_mod (a n : Z) : JsIndex :=
  if n =? 0 then NaN else Idx (a mod n).

(** [array[i]] for a number [i]: [undefined] outside the array. *)
Definition js_get {A} (l : list A) (i : Z) : option A :=
  if i <? 0 then None else l !! Z.to_nat i.

Definition js_index {A} (l : list A) (i : JsIndex) : option A :=
  match i with
  | Idx z => js_get l z
  | NaN => None
  end.

Module GlyphMap.

Record GlyphMask := {
  width : Z;
  height : Z;
  pixels : list Z;
}.

Record TileMapping := {
  x : Q;
  y : Q;
  tileIndex : JsIndex;
  isForeground : bool;
}.

(** The 2d canvas as the mask generator uses it. *)
Record Canvas := {
  (** [canvas.getContext('2d')] is not null *)
  hasContext : bool;
  (** [ctx.measureText(text).width] under the given [ctx.font] *)
  measureText : string -> string -> Q;
  (** the RGBA bytes [getImageData(0, 0, width, height).data] after
      [fillText(text, padding, padding)] in white, baseline top, under the
      given font, on a cleared canvas of that size *)
  getImageData : string -> string -> Z -> Z -> Z -> Result (list Z);
}.

Definition fontString (fontSize : Z) (fontFamily : string) : string :=
  String.append "900 "
    (String.append (Photos.show_Z fontSize) (String.append "px " fontFamily)).

(** The mask bit of pixel [i]: its alpha byte, every 4th value of the raster,
    against 128. *)
Definition alphaBit (data : list Z) (i : Z) : Z :=
  match js_get data (i * 4 + 3) with
  | Some a => if 128 <? a then 1 else 0
  | None => 0
  end.

(** Generate a binary mask from text using canvas. *)
Definition generateTextMask (canvas : Canvas) (text : string) (scale : Q)
    (fontFamily : string) : Result GlyphMask :=
  if negb (hasContext canvas) then Err "Failed to get canvas context"
  else
    let fontSize := Qfloor (100 * scale) in
    let font := fontString fontSize fontFamily in
    let metrics_width := measureText canvas font text in
    let padding := Qfloor (20 * scale) in
    let width := Qceiling (metrics_width + inject_Z (padding * 2)) in
    let height := Qceiling (inject_Z fontSize * (3 # 2) + inject_Z (padding * 2)) in
    match getImageData canvas font text padding width height with
    | Err e => Err e
    | Ok data =>
        if width * height <? 0 then Err "Invalid typed array length"
        else
          Ok {| width := width; height := height;
                pixels := (fun i => alphaBit data i) <$> seqZ 0 (width * height) |}
    end.

Section Shuffle.

(** [Math.random]: the result of its [k]-th call. *)
Variable Math_random : nat -> Q.

(** [[a[i], a[j]] = [a[j], a[i]]] for indices inside the array. *)
Definition swap {T} (a : list T) (i j : nat) : list T :=
  match a !! i, a !! j with
  | Some ai, Some aj => <[j := ai]> (<[i := aj]> a)
  | _, _ => a
  end.

(** The loop of [shuffleArray] from index [i] down to 1; [k] counts the
    calls of [Math.random] made so far. *)
Fixpoint shuffle_loop {T} (i : nat) (shuffled : list T) (k : nat) : list T * nat :=
  match i with
  | O => (shuffled, k)
  | S i' =>
      let j := Qfloor (Math_random k * inject_Z (Z.of_nat i + 1)) in
      shuffle_loop i' (swap shuffled i (Z.to_nat j)) (S k)
  end.

(** Shuffle array using Fisher-Yates algorithm. *)
Definition shuffleArray {T} (array : list T) (k : nat) : list T * nat :=
  shuffle_loop (length array - 1) array k.

Definition foregroundScore (t : Photos.AtlasTile) : Q :=
  Photos.tile_luma t * (7 # 10) + Photos.tile_saturation t * 100 * (3 # 10).

Definition backgroundScore (t : Photos.AtlasTile) : Q :=
  Photos.tile_luma t * (5 # 10) + (1 - Photos.tile_saturation t) * 100 * (5 # 10).

(** [sort((a, b) => cmp a b)]: stable, [a] stays before [b] when
    [cmp a b <= 0]. *)
Definition array_sort {T} (cmp : T -> T -> Q) (l : list T) : list T :=
  Photos.sort_by (fun a b => Qle_bool (cmp a b) 0) l.

(** The two shuffled orderings built by [mapTilesToGlyph]. *)
Definition shuffledOrderings (atlasData : Photos.AtlasData)
  : list Photos.AtlasTile * list Photos.AtlasTile :=
  let foregroundTiles :=
    array_sort (fun a b => foregroundScore b - foregroundScore a)%Q (Photos.tiles atlasData) in
  let backgroundTiles :=
    array_sort (fun a b => backgroundScore a - backgroundScore b)%Q (Photos.tiles atlasData) in
  let fg := shuffleArray foregroundTiles 0 in
  let bg := shuffleArray backgroundTiles (snd fg) in
  (fst fg, fst bg).

(** The loop variables of [mapTilesToGlyph]. *)
Record MapState := {
  foregroundIndex : Z;
  backgroundIndex : Z;
  mappings : list TileMapping;
}.

(** The centre sample of cell [(tx, ty)]: an index into [mask.pixels]. *)
Definition sampleIndex (mask : GlyphMask) (tileSize : Q) (tx ty : Z) : Z :=
  let x := (inject_Z tx * tileSize)%Q in
  let y := (inject_Z ty * tileSize)%Q in
  let sampleX := Z.min (Qfloor (x + tileSize / 2)) (width mask - 1) in
  let sampleY := Z.min (Qfloor (y + tileSize / 2)) (height mask - 1) in
  sampleY * width mask + sampleX.

(** The body of the inner loop for cell [(tx, ty)]. *)
Definition mapCell (mask : GlyphMask) (nForeground nBackground : Z) (tileSize : Q)
    (ty tx : Z) (st : MapState) : MapState :=
  let x := (inject_Z tx * tileSize)%Q in
  let y := (inject_Z ty * tileSize)%Q in
  let maskValue := js_get (pixels mask) (sampleIndex mask tileSize tx ty) in
  let isForeground := match maskValue with Some 1 => true | _ => false end in
  if isForeground
  then {| foregroundIndex := foregroundIndex st + 1;
          backgroundIndex := backgroundIndex st;
          mappings := mappings st ++
            [ {| x := x; y := y;
                 tileIndex := js_mod (foregroundIndex st) nForeground;
                 isForeground := true |} ] |}
  else {| foregroundIndex := foregroundIndex st;
          backgroundIndex := backgroundIndex st + 1;
          mappings := mappings st ++
            [ {| x := x; y := y;
                 tileIndex := js_mod (backgroundIndex st) nBackground;
                 isForeground := false |} ] |}.

Definition mapRow (mask : GlyphMask) (nForeground nBackground : Z) (tileSize : Q)
    (tilesX : Z) (st : MapState) (ty : Z) : MapState :=
  foldl (fun st tx => mapCell mask nForeground nBackground tileSize ty tx st)
        st (seqZ 0 tilesX).

(** Map tiles to glyph mask positions. *)
Definition mapTilesToGlyph (mask : GlyphMask) (atlasData : Photos.AtlasData)
    (tileSize : Q) : list TileMapping :=
  let tilesX := Qceiling (inject_Z (width mask) / tileSize) in
  let tilesY := Qceiling (inject_Z (height mask) / tileSize) in
  let shuffled := shuffledOrderings atlasData in
  let shuffledForeground := fst shuffled in
  let shuffledBackground := snd shuffled in
  mappings
    (foldl (mapRow mask (Z.of_nat (length shuffledForeground))
                   (Z.of_nat (length shuffledBackground)) tileSize tilesX)
           {| foregroundIndex := 0; backgroundIndex := 0; mappings := [] |}
           (seqZ 0 tilesY)).

End Shuffle.

(** Calculate optimal tile size based on viewport. *)
Definition calculateTileSize (viewportWidth baseVw : Q) : Z :=
  Qfloor (viewportWidth * baseVw / 100).

(** Calculate container dimensions to fit mask. *)
Definition calculateContainerSize (mask : GlyphMask) (tileSize : Q) : Q * Q :=
  (inject_Z (Qceiling (inject_Z (width mask) / tileSize)) * tileSize,
   inject_Z (Qceiling (inject_Z (height mask) / tileSize)) * tileSize)%Q.

End GlyphMap.

(** * src/lib/pixiTicker.ts *)

Module PixiTicker.

Inductive Direction := left | right.

Record PixiTickerConfig := {
  text : string;
  scrollSpeed : Q;
  scrollDirection : Direction;
  tileBaseVw : Q;
  glyphScale : Q;
  fpsTarget : Q;
  autoQuality : bool;
  minFps : Q;
}.

(** A sprite; [texture] is the atlas tile whose rectangle it shows
    ([atlas.tiles[i]] is cut from [data.tiles[i]] by [loadAtlas]), [None]
    for an undefined texture. *)
Record Sprite := {
  texture : option Photos.AtlasTile;
  x : Q;
  y : Q;
  scale : Q;
  zIndex : Z;
  filtered : bool;
}.

(** [texture.width] and [texture.height]; the empty texture is 1 x 1. *)
Definition texture_width (s : Sprite) : Q :=
  match texture s with Some t => inject_Z (Photos.tile_width t) | None => 1 end.

Definition texture_height (s : Sprite) : Q :=
  match texture s with Some t => inject_Z (Photos.tile_height t) | None => 1 end.

(** An entry of [originalSpriteData]. *)
Record SpriteData := {
  orig_x : Q;
  orig_y : Q;
  orig_scale : Q;
  orig_zIndex : Z;
}.

(** The closure that [animateSprite] hands to [requestAnimationFrame]. *)
Record Animation := {
  anim_sprite : nat;
  anim_start : Q;
  startScale : Q;
  startX : Q;
  startY : Q;
  props_scale : option Q;
  props_x : option Q;
  props_y : option Q;
  props_duration : Q;
}.

Record Screen := { screen_width : Q; screen_height : Q }.

(** The fields of class [PixiTicker].  Sprites are named by their position
    in [sprites]; times are milliseconds of [performance.now()]. *)
Record Ticker := {
  app : option Screen;
  container : option Q;              (* container.x *)
  atlas : option Photos.AtlasData;
  sprites : list Sprite;
  config : PixiTickerConfig;
  isScrolling : bool;
  scrollOffset : Q;
  hoveredSprite : option nat;
  lastTime : Q;
  frameCount : Z;
  fpsTimer : Q;
  currentFps : Q;
  overlay : option (bool * Q);       (* visible, fill alpha *)
  originalSpriteData : gmap nat SpriteData;
  frameCallbacks : list Animation;   (* requestAnimationFrame queue *)
  timeouts : list Q;                 (* due times of the resume timers *)
}.

(** The field initialisers and the constructor, at time [now]. *)
Definition new_ticker (cfg : PixiTickerConfig) (now : Q) : Ticker :=
  {| app := None; container := None; atlas := None; sprites := [];
     config := cfg; isScrolling := true; scrollOffset := 0;
     hoveredSprite := None; lastTime := now; frameCount := 0; fpsTimer := 0;
     currentFps := 60; overlay := None; originalSpriteData := ∅;
     frameCallbacks := []; timeouts := [] |}.

Definition set_loaded (screen : Screen) (atlasData : Photos.AtlasData) (t : Ticker) : Ticker :=
  {| app := Some screen;
     container := container t;
     atlas := Some atlasData;
     sprites := sprites t;
     config := config t;
     isScrolling := isScrolling t;
     scrollOffset := scrollOffset t;
     hoveredSprite := hoveredSprite t;
     lastTime := lastTime t;
     frameCount := frameCount t;
     fpsTimer := fpsTimer t;
     currentFps := currentFps t;
     overlay := overlay t;
     originalSpriteData := originalSpriteData t;
     frameCallbacks := frameCallbacks t;
     timeouts := timeouts t |}.

Definition set_sprites (ss : list Sprite) (t : Ticker) : Ticker :=
  {| app := app t;
     container := container t;
     atlas := atlas t;
     sprites := ss;
     config := config t;
     isScrolling := isScrolling t;
     scrollOffset := scrollOffset t;
     hoveredSprite := hoveredSprite t;
     lastTime := lastTime t;
     frameCount := frameCount t;
     fpsTimer := fpsTimer t;
     currentFps := currentFps t;
     overlay := overlay t;
     originalSpriteData := originalSpriteData t;
     frameCallbacks := frameCallbacks t;
     timeouts := timeouts t |}.

Definition set_isScrolling (v : bool) (t : Ticker) : Ticker :=
  {| app := app t;
     container := container t;
     atlas := atlas t;
     sprites := sprites t;
     config := config t;
     isScrolling := v;
     scrollOffset := scrollOffset t;
     hoveredSprite := hoveredSprite t;
     lastTime := lastTime t;
     frameCount := frameCount t;
     fpsTimer := fpsTimer t;
     currentFps := currentFps t;
     overlay := overlay t;
     originalSpriteData := originalSpriteData t;
     frameCallbacks := frameCallbacks t;
     timeouts := timeouts t |}.

Definition set_hoveredSprite (v : option nat) (t : Ticker) : Ticker :=
  {| app := app t;
     container := container t;
     atlas := atlas t;
     sprites := sprites t;
     config := config t;
     isScrolling := isScrolling t;
     scrollOffset := scrollOffset t;
     hoveredSprite := v;
     lastTime := lastTime t;
     frameCount := frameCount t;
     fpsTimer := fpsTimer t;
     currentFps := currentFps t;
     overlay := overlay t;
     originalSpriteData := originalSpriteData t;
     frameCallbacks := frameCallbacks t;
     timeouts := timeouts t |}.

Definition set_overlay (v : option (bool * Q)) (t : Ticker) : Ticker :=
  {| app := app t;
     container := container t;
     atlas := atlas t;
     sprites := sprites t;
     config := config t;
     isScrolling := isScrolling t;
     scrollOffset := scrollOffset t;
     hoveredSprite := hoveredSprite t;
     lastTime := lastTime t;
     frameCount := frameCount t;
     fpsTimer := fpsTimer t;
     currentFps := currentFps t;
     overlay := v;
     originalSpriteData := originalSpriteData t;
     frameCallbacks := frameCallbacks t;
     timeouts := timeouts t |}.

Definition set_frameCallbacks (v : list Animation) (t : Ticker) : Ticker :=
  {| app := app t;
     container := container t;
     atlas := atlas t;
     sprites := sprites t;
     config := config t;
     isScrolling := isScrolling t;
     scrollOffset := scrollOffset t;
     hoveredSprite := hoveredSprite t;
     lastTime := lastTime t;
     frameCount := frameCount t;
     fpsTimer := fpsTimer t;
     currentFps := currentFps t;
     overlay := overlay t;
     originalSpriteData := originalSpriteData t;
     frameCallbacks := v;
     timeouts := timeouts t |}.

Definition set_timeouts (v : list Q) (t : Ticker) : Ticker :=
  {| app := app t;
     container := container t;
     atlas := atlas t;
     sprites := sprites t;
     config := config t;
     isScrolling := isScrolling t;
     scrollOffset := scrollOffset t;
     hoveredSprite := hoveredSprite t;
     lastTime := lastTime t;
     frameCount := frameCount t;
     fpsTimer := fpsTimer t;
     currentFps := currentFps t;
     overlay := overlay t;
     originalSpriteData := originalSpriteData t;
     frameCallbacks := frameCallbacks t;
     timeouts := v |}.

Definition set_scene (c : option Q) (ss : list Sprite) (od : gmap nat SpriteData) (t : Ticker) : Ticker :=
  {| app := app t;
     container := c;
     atlas := atlas t;
     sprites := ss;
     config := config t;
     isScrolling := isScrolling t;
     scrollOffset := scrollOffset t;
     hoveredSprite := hoveredSprite t;
     lastTime := lastTime t;
     frameCount := frameCount t;
     fpsTimer := fpsTimer t;
     currentFps := currentFps t;
     overlay := overlay t;
     originalSpriteData := od;
     frameCallbacks := frameCallbacks t;
     timeouts := timeouts t |}.

Definition set_fps (now : Q) (fc : Z) (ft fps : Q) (t : Ticker) : Ticker :=
  {| app := app t;
     container := container t;
     atlas := atlas t;
     sprites := sprites t;
     config := config t;
     isScrolling := isScrolling t;
     scrollOffset := scrollOffset t;
     hoveredSprite := hoveredSprite t;
     lastTime := now;
     frameCount := fc;
     fpsTimer := ft;
     currentFps := fps;
     overlay := overlay t;
     originalSpriteData := originalSpriteData t;
     frameCallbacks := frameCallbacks t;
     timeouts := timeouts t |}.

Definition set_scroll (c : option Q) (off : Q) (t : Ticker) : Ticker :=
  {| app := app t;
     container := c;
     atlas := atlas t;
     sprites := sprites t;
     config := config t;
     isScrolling := isScrolling t;
     scrollOffset := off;
     hoveredSprite := hoveredSprite t;
     lastTime := lastTime t;
     frameCount := frameCount t;
     fpsTimer := fpsTimer t;
     currentFps := currentFps t;
     overlay := overlay t;
     originalSpriteData := originalSpriteData t;
     frameCallbacks := frameCallbacks t;
     timeouts := timeouts t |}.

Definition set_xy_scale (sx sy sscale : option Q) (s : Sprite) : Sprite :=
  {| texture := texture s;
     x := default (x s) sx;
     y := default (y s) sy;
     scale := default (scale s) sscale;
     zIndex := zIndex s;
     filtered := filtered s |}.

Definition set_zIndex (z : Z) (s : Sprite) : Sprite :=
  {| texture := texture s; x := x s; y := y s; scale := scale s;
     zIndex := z; filtered := filtered s |}.

(** Apply [f] to the sprite named [i]. *)
Definition update_sprite (i : nat) (f : Sprite -> Sprite) (t : Ticker) : Ticker :=
  set_sprites (alter f i (sprites t)) t.

Section Scene.

Variable canvas : GlyphMap.Canvas.
Variable Math_random : nat -> Q.

Definition FONT_FAMILY : string :=
  "Rubik Black, Manrope ExtraBold, Montserrat ExtraBold".

(** The body of the loop of [createScene] for one mapping. *)
Definition addSprite (atlasData : Photos.AtlasData) (tileSize : Z) (offsetY : Q)
    (acc : list Sprite * gmap nat SpriteData) (mapping : GlyphMap.TileMapping)
  : list Sprite * gmap nat SpriteData :=
  let texture := js_index (Photos.tiles atlasData) (GlyphMap.tileIndex mapping) in
  let scale := (inject_Z tileSize / inject_Z (Photos.atlas_tileSize atlasData))%Q in
  let sprite :=
    {| texture := texture;
       x := GlyphMap.x mapping;
       y := (GlyphMap.y mapping + offsetY)%Q;
       scale := scale;
       zIndex := 0;
       filtered := negb (GlyphMap.isForeground mapping) |} in
  (fst acc ++ [sprite],
   <[ length (fst acc) := {| orig_x := x sprite; orig_y := y sprite;
                             orig_scale := scale; orig_zIndex := 0 |} ]> (snd acc)).

(** The body of the loop of [duplicateContainerForLoop] for one sprite. *)
Definition addDuplicate (width : Q)
    (acc : list Sprite * gmap nat SpriteData) (sprite : Sprite)
  : list Sprite * gmap nat SpriteData :=
  let duplicate :=
    {| texture := texture sprite;
       x := (x sprite + width + 100)%Q;
       y := y sprite;
       scale := scale sprite;
       zIndex := 0;
       filtered := filtered sprite |} in
  (fst acc ++ [duplicate],
   <[ length (fst acc) := {| orig_x := x duplicate; orig_y := y duplicate;
                             orig_scale := scale duplicate; orig_zIndex := 0 |} ]> (snd acc)).

(** Duplicate sprites for seamless scrolling loop. *)
Definition duplicateContainerForLoop (width : Q)
    (scene : list Sprite * gmap nat SpriteData) : list Sprite * gmap nat SpriteData :=
  let originalSprites := fst scene in
  foldl (addDuplicate width) scene originalSprites.

(** Create the ticker scene with sprites. *)
Definition createScene (t : Ticker) : Result Ticker :=
  match app t, atlas t with
  | Some screen, Some atlasData =>
      match GlyphMap.generateTextMask canvas (text (config t)) (glyphScale (config t))
                                      FONT_FAMILY with
      | Err e => Err e
      | Ok mask =>
          let tileSize :=
            GlyphMap.calculateTileSize (screen_width screen) (tileBaseVw (config t)) in
          let mappings :=
            GlyphMap.mapTilesToGlyph Math_random mask atlasData (inject_Z tileSize) in
          let containerSize := GlyphMap.calculateContainerSize mask (inject_Z tileSize) in
          let offsetY := ((screen_height screen - snd containerSize) / 2)%Q in
          let scene :=
            foldl (addSprite atlasData tileSize offsetY)
                  (sprites t, originalSpriteData t) mappings in
          let looped := duplicateContainerForLoop (fst containerSize) scene in
          Ok (set_overlay (Some (false, 0%Q))
                (set_scene (Some 0%Q) (fst looped) (snd looped) t))
      end
  | _, _ => Ok t
  end.

(** Initialize Pixi application and scene: [surface] is the outcome of
    [app.init], [loaded] that of [loadAtlas]. *)
Definition init (surface : Result Screen) (loaded : Result Photos.AtlasData)
    (t : Ticker) : Result Ticker :=
  match surface with
  | Err e => Err e
  | Ok screen =>
      match loaded with
      | Err e => Err e
      | Ok atlasData => createScene (set_loaded screen atlasData t)
      end
  end.

End Scene.

(** Animate sprite properties with easing: the closure is queued for the
    next frame. *)
Definition animateSprite (now : Q) (i : nat) (to_scale to_x to_y : option Q)
    (duration : Q) (t : Ticker) : Ticker :=
  match sprites t !! i with
  | None => t
  | Some sprite =>
      set_frameCallbacks
        (frameCallbacks t ++
           [ {| anim_sprite := i; anim_start := now;
                startScale := scale sprite; startX := x sprite; startY := y sprite;
                props_scale := to_scale; props_x := to_x; props_y := to_y;
                props_duration := duration |} ]) t
  end.

(** Cubic ease in-out. *)
Definition ease (progress : Q) : Q :=
  if Qltb progress (1 # 2)
  then 4 * progress * progress * progress
  else 1 - ((-2 * progress + 2) * (-2 * progress + 2) * (-2 * progress + 2)) / 2.

(** One call of the closure [animate] of [animateSprite] at frame time [now]. *)
Definition animationFrame (now : Q) (a : Animation) (t : Ticker) : Ticker :=
  let elapsed := (now - anim_start a)%Q in
  let progress := Qmin (elapsed / props_duration a) 1 in
  let e := ease progress in
  let t1 :=
    update_sprite (anim_sprite a)
      (set_xy_scale
         ((fun px => startX a + (px - startX a) * e)%Q <$> props_x a)
         ((fun py => startY a + (py - startY a) * e)%Q <$> props_y a)
         ((fun ps => startScale a + (ps - startScale a) * e)%Q <$> props_scale a)) t in
  if Qltb progress 1
  then set_frameCallbacks (frameCallbacks t1 ++ [a]) t1
  else t1.

(** The browser runs the queued animation-frame callbacks, in order; what
    they queue runs in the next frame. *)
Definition runFrame (now : Q) (t : Ticker) : Ticker :=
  foldl (fun t a => animationFrame now a t) (set_frameCallbacks [] t) (frameCallbacks t).

(** Handle hover start - pause and zoom. *)
Definition handleHoverStart (now : Q) (i : nat) (t : Ticker) : Ticker :=
  match sprites t !! i, app t with
  | Some sprite, Some screen =>
      if bool_decide (hoveredSprite t = Some i) then t
      else
        let t1 := set_isScrolling false t in
        let t2 := set_overlay ((fun _ => (true, 7 # 10)) <$> overlay t1) t1 in
        let t3 := set_hoveredSprite (Some i) (update_sprite i (set_zIndex 2000) t2) in
        let targetWidth := (screen_width screen * (6 # 10))%Q in
        let targetScale := (targetWidth / texture_width sprite)%Q in
        animateSprite now i (Some targetScale)
          (Some ((screen_width screen - targetWidth) / 2)%Q)
          (Some ((screen_height screen - texture_height sprite * targetScale) / 2)%Q)
          300 t3
  | _, _ => t
  end.

(** Handle hover end - resume and restore. *)
Definition handleHoverEnd (now : Q) (t : Ticker) : Ticker :=
  match hoveredSprite t with
  | None => t
  | Some i =>
      let t1 :=
        match originalSpriteData t !! i with
        | Some original =>
            animateSprite now i (Some (orig_scale original))
              (Some (orig_x original - scrollOffset t)%Q)
              (Some (orig_y original)) 300 t
        | None => t
        end in
      let t2 := set_hoveredSprite None (update_sprite i (set_zIndex 0) t1) in
      let t3 := set_overlay ((fun o => (false, snd o)) <$> overlay t2) t2 in
      set_timeouts (timeouts t3 ++ [(now + 300)%Q]) t3
  end.

(** The timers of [handleHoverEnd] that are due at [now] fire: scrolling
    resumes. *)
Definition runTimeouts (now : Q) (t : Ticker) : Ticker :=
  let due := filter (fun d => Qle_bool d now = true) (timeouts t) in
  let pending := filter (fun d => Qle_bool d now = false) (timeouts t) in
  match due with
  | [] => t
  | _ :: _ => set_isScrolling true (set_timeouts pending t)
  end.

(** Get the width of one loop cycle. *)
Definition getLoopWidth (t : Ticker) : Q :=
  match sprites t !! (length (sprites t) / 2)%nat, sprites t !! 0%nat with
  | Some half, Some first => Qabs (x half - x first)
  | _, _ => 0
  end.

Definition direction (cfg : PixiTickerConfig) : Q :=
  match scrollDirection cfg with right => 1 | left => -1 end.

(** Animation loop: the ticker callback at time [now]. *)
Definition animate (now : Q) (t : Ticker) : Ticker :=
  match app t, container t with
  | Some _, Some _ =>
      let delta := ((now - lastTime t) / 1000)%Q in
      let frameCount1 := frameCount t + 1 in
      let fpsTimer1 := (fpsTimer t + delta)%Q in
      let t1 :=
        if Qle_bool 1 fpsTimer1
        then set_fps now 0 0 (inject_Z frameCount1 / fpsTimer1)%Q t
        else set_fps now frameCount1 fpsTimer1 (currentFps t) t in
      if isScrolling t1
      then
        let scrollDelta := (scrollSpeed (config t1) * delta)%Q in
        let offset := (scrollOffset t1 + scrollDelta * direction (config t1))%Q in
        let t2 := set_scroll (Some (- offset)%Q) offset t1 in
        let loopWidth := getLoopWidth t2 in
        if Qltb loopWidth (Qabs offset)
        then set_scroll (container t2) 0 t2
        else t2
      else t1
  | _, _ => t
  end.

(** What can happen to a live ticker. *)
Inductive Event :=
| Tick (now : Q)
| Frame (now : Q)
| HoverStart (now : Q) (sprite : nat)
| HoverEnd (now : Q)
| Timeout (now : Q).

Definition step (t : Ticker) (e : Event) : Ticker :=
  match e with
  | Tick now => animate now t
  | Frame now => runFrame now t
  | HoverStart now i => handleHoverStart now i t
  | HoverEnd now => handleHoverEnd now t
  | Timeout now => runTimeouts now t
  end.

Definition run (t : Ticker) (events : list Event) : Ticker := foldl step t events.

End PixiTicker.

(** * Reference statements and sample inputs *)

Module AtlasSpec.

Import Photos.

(** The metadata entry of the photo at index [i] of the build order, in a
    grid of [tilesPerRow] columns: cell [(i mod tilesPerRow, i div tilesPerRow)]. *)
Definition placedTile (tilesPerRow : Z) (i : Z) (photo : PhotoRow) : AtlasTile :=
  {| tile_id := row_id photo;
     tile_filename := filename (row_meta photo);
     tile_x := (i mod tilesPerRow) * ATLAS_TILE_SIZE;
     tile_y := (i / tilesPerRow) * ATLAS_TILE_SIZE;
     tile_width := ATLAS_TILE_SIZE;
     tile_height := ATLAS_TILE_SIZE;
     tile_avgColor := avgColor (row_meta photo);
     tile_luma := luma (row_meta photo);
     tile_saturation := saturation (row_meta photo) |}.

(** The path under which [buildAtlas] looks for the 512px variant of a photo. *)
Definition variantPath (extname : string -> string) (join : list string -> string)
    (DATA_DIR : string) (photo : PhotoRow) : string :=
  join [VARIANTS_DIR join DATA_DIR; variantFilename extname (filename (row_meta photo))].

(** The rectangle of a tile lies inside the atlas image. *)
Definition insideAtlas (doc : AtlasData) (tile : AtlasTile) : Prop :=
  0 <= tile_x tile /\ tile_x tile + tile_width tile <= atlas_width doc /\
  0 <= tile_y tile /\ tile_y tile + tile_height tile <= atlas_height doc.

(** The three encodings of a variant: the format name stored in the table
    and the file extension. *)
Definition formats : list (string * string) :=
  [("avif", ".avif"); ("webp", ".webp"); ("jpeg", ".jpg")]%string.

(** The rows of table [photo_variants] for one photo: one per size and
    format, sizes outermost; [len size format] is the length of the encoded
    buffer. *)
Definition variantRowsOf (join : list string -> string) (DATA_DIR : string)
    (stem : string) (photoId : Z) (len : Z -> string -> Z) : list VariantRow :=
  size ← VARIANT_SIZES;
  (fun f => {| var_photo_id := photoId; var_size := size; var_format := f.1;
               var_path := join [VARIANTS_DIR join DATA_DIR; variantName stem size f.2];
               var_file_size := len size f.1 |}) <$> formats.

(** The columns of a variant row under the UNIQUE constraint of table
    [photo_variants]. *)
Definition variantKey (v : VariantRow) : Z * Z * string :=
  (var_photo_id v, var_size v, var_format v).

(** The file names in table [photos]. *)
Definition indexedNames (s : Store) : list string :=
  (fun row => filename (row_meta row)) <$> photos s.

(** The extension of a directory entry is one the reindexer accepts. *)
Definition isImageName (extname toLowerCase : string -> string) (file : string) : bool :=
  existsb (String.eqb (toLowerCase (extname file)))
          [".jpg"; ".jpeg"; ".png"; ".webp"]%string.

End AtlasSpec.


Module GlyphSpec.

Import GlyphMap.

(** The cells of a [tilesX] by [tilesY] grid in row-major order, as
    [(ty, tx)]. *)
Definition cells (tilesX tilesY : Z) : list (Z * Z) :=
  ty ← seqZ 0 tilesY; (fun tx => (ty, tx)) <$> seqZ 0 tilesX.

(** The mask value at the centre sample of a cell is 1. *)
Definition sampledForeground (mask : GlyphMask) (tileSize : Q) (c : Z * Z) : bool :=
  match js_get (pixels mask) (sampleIndex mask tileSize c.2 c.1) with
  | Some 1 => true
  | _ => false
  end.

(** How many of the cells [earlier] were sampled as [fg]. *)
Definition drawn (mask : GlyphMask) (tileSize : Q) (fg : bool) (earlier : list (Z * Z)) : Z :=
  Z.of_nat (length (filter (fun c => sampledForeground mask tileSize c = fg) earlier)).

(** Round-robin assignment: the cell at position [k] of [grid] draws the
    next index of the ordering of its kind, modulo that ordering's length. *)
Definition assignment (mask : GlyphMask) (nForeground nBackground : Z) (tileSize : Q)
    (grid : list (Z * Z)) (k : nat) (c : Z * Z) : TileMapping :=
  let fg := sampledForeground mask tileSize c in
  {| x := (inject_Z c.2 * tileSize)%Q;
     y := (inject_Z c.1 * tileSize)%Q;
     tileIndex := js_mod (drawn mask tileSize fg (take k grid))
                         (if fg then nForeground else nBackground);
     isForeground := fg |}.

(** The mask has one pixel per position of its width x height grid. *)
Definition wellFormed (mask : GlyphMask) : Prop :=
  length (pixels mask) = Z.to_nat (width mask * height mask).




End GlyphSpec.

Module SceneSpec.

Import PixiTicker.

(** The sprite that [createScene] builds for one mapping. *)
Definition spriteOf (atlasData : Photos.AtlasData) (tileSize : Z) (offsetY : Q)
    (mapping : GlyphMap.TileMapping) : Sprite :=
  {| texture := js_index (Photos.tiles atlasData) (GlyphMap.tileIndex mapping);
     x := GlyphMap.x mapping;
     y := (GlyphMap.y mapping + offsetY)%Q;
     scale := (inject_Z tileSize / inject_Z (Photos.atlas_tileSize atlasData))%Q;
     zIndex := 0;
     filtered := negb (GlyphMap.isForeground mapping) |}.

(** The copy of a sprite one content width plus the gap of 100 to the right. *)
Definition duplicateOf (width : Q) (sprite : Sprite) : Sprite :=
  {| texture := texture sprite;
     x := (x sprite + width + 100)%Q;
     y := y sprite;
     scale := scale sprite;
     zIndex := 0;
     filtered := filtered sprite |}.

(** The rest state of a sprite as [createScene] records it. *)
Definition restStateOf (sprite : Sprite) : SpriteData :=
  {| orig_x := x sprite; orig_y := y sprite; orig_scale := scale sprite;
     orig_zIndex := 0 |}.

(** [v] lies between [a] and [b], whichever is the larger. *)
Definition between (a b v : Q) : Prop := (Qmin a b <= v)%Q /\ (v <= Qmax a b)%Q.

(** An event that is no pointer event: a tick, a frame or a timer. *)
Definition noPointer (e : Event) : Prop :=
  match e with
  | HoverStart _ _ | HoverEnd _ => False
  | Tick _ | Frame _ | Timeout _ => True
  end.

End SceneSpec.
(** Sample inputs.  The stand-ins for node's path functions are right for
    plain ASCII names without empty, "." or ".." segments. *)
Module Samples.

Import Photos.

Definition join (segments : list string) : string := String.concat "/" segments.

Fixpoint has_slash (s : string) : bool :=
  match s with
  | EmptyString => false
  | String c rest => Ascii.eqb c "/"%char || has_slash rest
  end.

Fixpoint basename (p : string) : string :=
  match p with
  | EmptyString => EmptyString
  | String c rest => if has_slash p then basename rest else p
  end.

(** The suffix that starts at the last dot. *)
Fixpoint from_last_dot (s : string) : option string :=
  match s with
  | EmptyString => None
  | String c rest =>
      match from_last_dot rest with
      | Some e => Some e
      | None => if Ascii.eqb c "."%char then Some s else None
      end
  end.

(** A dot in first position starts no extension. *)
Definition extname (p : string) : string :=
  match basename p with
  | EmptyString => EmptyString
  | String _ rest => default EmptyString (from_last_dot rest)
  end.

Definition basename_ext (p ext : string) : string :=
  let base := basename p in
  let n := (String.length base - String.length ext)%nat in
  if (String.length ext <? String.length base)%nat
     && String.eqb (String.substring n (String.length ext) base) ext
  then String.substring 0 n base
  else base.

Definition lower (c : Ascii.ascii) : Ascii.ascii :=
  let n := Ascii.nat_of_ascii c in
  if (65 <=? n)%nat && (n <=? 90)%nat then Ascii.ascii_of_nat (n + 32) else c.

Fixpoint toLowerCase (s : string) : string :=
  match s with
  | EmptyString => EmptyString
  | String c rest => String (lower c) (toLowerCase rest)
  end.

Definition DATA_DIR : string := "./data".

Definition decoded : SharpImage :=
  {| meta_width := 640; meta_height := 480; meta_format := "jpeg";
     channel_means := [200; 100; 50]%Q; stat_size := 1000 |}.

(** A decoder that rejects the file named bad.jpg. *)
Definition sharp (p : string) : Result SharpImage :=
  if String.eqb (basename p) "bad.jpg"
  then Err "Input file contains unsupported image format"
  else Ok decoded.

Definition encode (p : string) (size : Z) (format : string) : Result Z := Ok 4096.

Definition resizeTile (p : string) : Result unit := Ok tt.

Definition readdir (dir : string) : Result (list string) := Ok ["bad.jpg"; "good.jpg"]%string.

Definition emptyStore : Store :=
  {| photos := []; photos_seq := 0; photo_variants := []; atlas := None;
     files := ∅; atlas_json := None; atlas_image := None |}.

Definition photoRow (id : Z) (name : string) (l s : Q) : PhotoRow :=
  {| row_id := id; row_original_path := join [DATA_DIR; "photos"; "original"; name];
     row_meta := {| filename := name; width := 640; height := 480; fileSize := 1000;
                    mimeType := "image/jpeg";
                    avgColor := {| r := 200; g := 100; b := 50 |};
                    luma := l; saturation := s |} |}.

(** Two photos; only a.jpg has its 512px variant on disk. *)
Definition twoPhotos : Store :=
  {| photos := [photoRow 1 "a.jpg" 130 (3 # 4); photoRow 2 "b.jpg" 90 (1 # 4)];
     photos_seq := 2; photo_variants := []; atlas := None;
     files := {[ "./data/photos/variants/a_512.webp"%string ]};
     atlas_json := None; atlas_image := None |}.

(** [n] photos p0.jpg, p1.jpg, ... of equal luma and saturation, each with
    its 512px variant on disk. *)
Definition numbered (n : nat) : Store :=
  let names := (fun i => String.append "p" (show_Z (Z.of_nat i))) <$> seq 0 n in
  {| photos := (fun '(i, name) => photoRow (Z.of_nat i + 1) (String.append name ".jpg") 100 (1 # 2))
                 <$> zip (seq 0 n) names;
     photos_seq := Z.of_nat n; photo_variants := []; atlas := None;
     files := dom (list_to_map
                     ((fun name => (join [DATA_DIR; "photos"; "variants";
                                          String.append name "_512.webp"], tt)) <$> names)
                   : gmap string unit);
     atlas_json := None; atlas_image := None |}.

(** What the analyzer reports for a decoded file named good.jpg. *)
Definition goodMetadata : PhotoMetadata :=
  {| filename := "good.jpg"; width := 640; height := 480; fileSize := 1000;
     mimeType := "image/jpeg"; avgColor := {| r := 200; g := 100; b := 50 |};
     luma := calculateLuma 200 100 50; saturation := calculateSaturation 200 100 50 |}.

Definition goodPath : string := "./data/photos/original/good.jpg".

(** An encoder that fails on every request. *)
Definition failingEncode (p : string) (size : Z) (format : string) : Result Z :=
  Err "avif: unsupported image".

(** A directory listing with a text file and good.jpg. *)
Definition readdirNotes (dir : string) : Result (list string) :=
  Ok ["notes.txt"; "good.jpg"]%string.

(** The store after good.jpg was processed on the empty store. *)
Definition oneGood : Store :=
  (processPhoto sharp basename basename_ext extname join encode DATA_DIR goodPath
     emptyStore).2.

Definition uploads : list UploadedFile :=
  [ {| originalname := "bad.jpg"; path := "uploads/bad.jpg" |};
    {| originalname := "good.jpg"; path := "uploads/good.jpg" |} ].

(** A raster of opaque white pixels whose alpha is [alpha column]. *)
Definition raster (alpha : Z -> Z) (w h : Z) : list Z :=
  i ← seqZ 0 (w * h); [255; 255; 255; alpha (i mod w)].

(** A canvas on which every text is 12 pixels wide and inks the columns
    left of 8 fully, the others not at all. *)
Definition halfCanvas : GlyphMap.Canvas :=
  {| GlyphMap.hasContext := true;
     GlyphMap.measureText := fun _ _ => 12%Q;
     GlyphMap.getImageData := fun _ _ _ w h =>
       Ok (raster (fun column => if column <? 8 then 255 else 0) w h) |}.


Definition FONT : string := "Rubik Black, Manrope ExtraBold, Montserrat ExtraBold".

(** The mask of "PAPA" at scale 0.1 on the half-inked canvas: 16 x 19. *)
Definition halfMask : GlyphMap.GlyphMask :=
  match GlyphMap.generateTextMask halfCanvas "PAPA" (1 # 10) FONT with
  | Ok mask => mask
  | Err _ => {| GlyphMap.width := 0; GlyphMap.height := 0; GlyphMap.pixels := [] |}
  end.

Definition tile (id : Z) (name : string) (x y : Z) (l s : Q) : AtlasTile :=
  {| tile_id := id; tile_filename := name; tile_x := x; tile_y := y;
     tile_width := 128; tile_height := 128;
     tile_avgColor := {| r := 200; g := 100; b := 50 |};
     tile_luma := l; tile_saturation := s |}.

(** An atlas of a bright, saturated photo (id 1) and a dark, dull one
    (id 2), in the order of the atlas builder: luma descending. *)
Definition twoTiles : AtlasData :=
  {| tiles := [tile 1 "bright.jpg" 0 0 200 (8 # 10); tile 2 "dark.jpg" 128 0 30 (1 # 10)];
     atlas_width := 256; atlas_height := 128; atlas_tileSize := 128 |}.

(** A random source that always returns 0.75: the shuffle of two elements
    keeps their order. *)
Definition threeQuarters (k : nat) : Q := 3 # 4.

(** A random source that always returns 0.25: the shuffle of two elements
    exchanges them. *)
Definition oneQuarter (k : nat) : Q := 1 # 4.

Definition config : PixiTicker.PixiTickerConfig :=
  {| PixiTicker.text := "PAPA"; PixiTicker.scrollSpeed := 50;
     PixiTicker.scrollDirection := PixiTicker.right; PixiTicker.tileBaseVw := 2;
     PixiTicker.glyphScale := 1 # 10; PixiTicker.fpsTarget := 60;
     PixiTicker.autoQuality := true; PixiTicker.minFps := 30 |}.

Definition screen : PixiTicker.Screen :=
  {| PixiTicker.screen_width := 400; PixiTicker.screen_height := 300 |}.

(** A ticker constructed at time 0 and initialised on a 400 x 300 screen
    with the two-tile atlas: 2 x 3 cells of 8 pixels and their duplicates. *)
Definition scene : PixiTicker.Ticker :=
  match PixiTicker.init halfCanvas threeQuarters (Ok screen) (Ok twoTiles)
                        (PixiTicker.new_ticker config 0) with
  | Ok t => t
  | Err _ => PixiTicker.new_ticker config 0
  end.

(** The sample scene scrolls for one second, to offset 50; sprite 0 is
    hovered and its zoom completes; the hover ends, the restore animation
    completes and scrolling resumes. *)
Definition hoverAt50 : list PixiTicker.Event :=
  [PixiTicker.Tick 1000; PixiTicker.HoverStart 1100 0; PixiTicker.Frame 1500;
   PixiTicker.HoverEnd 2000; PixiTicker.Timeout 2300; PixiTicker.Frame 2400].

End Samples.

(** * Properties *)

(** ** Numbers *)

Lemma Math_round_range (x : Q) (lo hi : Z) :
  (inject_Z lo <= x)%Q -> (x <= inject_Z hi)%Q -> lo <= Math_round x <= hi.
Proof.
  intros Hlo Hhi. unfold Math_round. split.
  - rewrite <- (Qfloor_Z lo). apply Qfloor_resp_le. lra.
  - assert (H : (x + (1 # 2) < inject_Z (hi + 1))%Q).
    { rewrite inject_Z_plus. change (inject_Z 1) with 1%Q. lra. }
    pose proof (Qfloor_le (x + (1 # 2))) as Hf.
    assert (Hlt : (inject_Z (Qfloor (x + (1 # 2))) < inject_Z (hi + 1))%Q) by lra.
    rewrite <- Zlt_Qlt in Hlt. lia.
Qed.

Lemma Qltb_lt (a b : Q) : Qltb a b = true <-> (a < b)%Q.
Proof.
  unfold Qltb. rewrite negb_true_iff. split.
  - intros H. apply Qnot_le_lt. intros Hle. apply Qle_bool_iff in Hle. congruence.
  - intros H. destruct (Qle_bool b a) eqn:E; [|reflexivity].
    apply Qle_bool_iff in E. lra.
Qed.

Lemma Qltb_ge (a b : Q) : Qltb a b = false <-> (b <= a)%Q.
Proof.
  unfold Qltb. rewrite negb_false_iff. apply Qle_bool_iff.
Qed.

(** ** Photo analyzer *)

Section AnalyzerFacts.

Import Photos.

Lemma Qmax3_cases (R G B : Q) :
  let M := Qmax R (Qmax G B) in
  (R <= M /\ G <= M /\ B <= M /\ (M == R \/ M == G \/ M == B))%Q.
Proof.
  cbn zeta.
  destruct (Q.max_spec G B) as [[H1 E1]|[H1 E1]];
  destruct (Q.max_spec R (Qmax G B)) as [[H2 E2]|[H2 E2]];
  rewrite ?E1 in *; rewrite ?E2, ?E1 in *; repeat split; try lra; auto.
Qed.

Lemma Qmin3_cases (R G B : Q) :
  let m := Qmin R (Qmin G B) in
  (m <= R /\ m <= G /\ m <= B /\ (m == R \/ m == G \/ m == B))%Q.
Proof.
  cbn zeta.
  destruct (Q.min_spec G B) as [[H1 E1]|[H1 E1]];
  destruct (Q.min_spec R (Qmin G B)) as [[H2 E2]|[H2 E2]];
  rewrite ?E1 in *; rewrite ?E2, ?E1 in *; repeat split; try lra; auto.
Qed.

Lemma calculateLuma_range (R G B : Q) :
  (0 <= R <= 255)%Q -> (0 <= G <= 255)%Q -> (0 <= B <= 255)%Q ->
  (0 <= calculateLuma R G B <= 255)%Q.
Proof. intros HR HG HB. unfold calculateLuma. lra. Qed.

(** For non-negative channels the minimum is between 0 and the maximum. *)
Lemma min_max_nonneg (R G B : Q) :
  (0 <= R)%Q -> (0 <= G)%Q -> (0 <= B)%Q ->
  (0 <= Qmin R (Qmin G B) <= Qmax R (Qmax G B))%Q.
Proof.
  intros HR HG HB.
  pose proof (Qmax3_cases R G B) as HM. pose proof (Qmin3_cases R G B) as Hm.
  cbn zeta in HM, Hm. split; [|lra].
  destruct Hm as (_ & _ & _ & [E|[E|E]]); rewrite E; assumption.
Qed.

Lemma calculateSaturation_range (R G B : Q) :
  (0 <= R)%Q -> (0 <= G)%Q -> (0 <= B)%Q ->
  (0 <= calculateSaturation R G B <= 1)%Q.
Proof.
  intros HR HG HB. pose proof (min_max_nonneg R G B HR HG HB) as Hmm.
  unfold calculateSaturation. destruct (Qeq_bool _ 0) eqn:E; [lra|].
  assert (Hne : ~ (Qmax R (Qmax G B) == 0)%Q)
    by (intros H0; apply Qeq_bool_iff in H0; congruence).
  split; [apply Qle_shift_div_l|apply Qle_shift_div_r]; lra.
Qed.



Variable sharp : string -> Result SharpImage.
Variable basename : string -> string.

(** [analyzeImage] applies the two formulas to the rounded channel means,
    which it reports as [avgColor]. *)
Lemma analyzeImage_stats (imagePath : string) (image : SharpImage) (m0 m1 m2 : Q)
    (rest : list Q) :
  sharp imagePath = Ok image ->
  channel_means image = m0 :: m1 :: m2 :: rest ->
  (0 <= m0 <= 255)%Q -> (0 <= m1 <= 255)%Q -> (0 <= m2 <= 255)%Q ->
  exists metadata,
    analyzeImage sharp basename imagePath = Ok metadata
    /\ 0 <= r (avgColor metadata) <= 255
    /\ 0 <= g (avgColor metadata) <= 255
    /\ 0 <= b (avgColor metadata) <= 255
    /\ (luma metadata ==
          calculateLuma (inject_Z (r (avgColor metadata)))
                        (inject_Z (g (avgColor metadata)))
                        (inject_Z (b (avgColor metadata))))%Q
    /\ (0 <= luma metadata <= 255)%Q
    /\ (0 <= saturation metadata <= 1)%Q.
Proof.
  intros Hs Hc H0 H1 H2. unfold analyzeImage. rewrite Hs, Hc. cbn.
  eexists. split; [reflexivity|]. cbn.
  pose proof (Math_round_range m0 0 255) as R0.
  pose proof (Math_round_range m1 0 255) as R1.
  pose proof (Math_round_range m2 0 255) as R2.
  change (inject_Z 0) with 0%Q in *. change (inject_Z 255) with 255%Q in *.
  specialize (R0 (proj1 H0) (proj2 H0)).
  specialize (R1 (proj1 H1) (proj2 H1)).
  specialize (R2 (proj1 H2) (proj2 H2)).
  assert (Q0 : (0 <= inject_Z (Math_round m0) <= 255)%Q).
  { split; [change 0%Q with (inject_Z 0)|change 255%Q with (inject_Z 255)];
      rewrite <- Zle_Qle; lia. }
  assert (Q1 : (0 <= inject_Z (Math_round m1) <= 255)%Q).
  { split; [change 0%Q with (inject_Z 0)|change 255%Q with (inject_Z 255)];
      rewrite <- Zle_Qle; lia. }
  assert (Q2 : (0 <= inject_Z (Math_round m2) <= 255)%Q).
  { split; [change 0%Q with (inject_Z 0)|change 255%Q with (inject_Z 255)];
      rewrite <- Zle_Qle; lia. }
  pose proof (calculateLuma_range _ _ _ Q0 Q1 Q2) as Hl.
  pose proof (calculateSaturation_range _ _ _ (proj1 Q0) (proj1 Q1) (proj1 Q2)) as Hsat.
  repeat split; try lia; try reflexivity; tauto.
Qed.

End AnalyzerFacts.

(** ** Lists *)

Lemma insert_by_Permutation {A} (before : A -> A -> bool) (x : A) (l : list A) :
  Photos.insert_by before x l ≡ₚ x :: l.
Proof.
  induction l as [|y l IH]; cbn; [reflexivity|].
  destruct (before x y); [reflexivity|].
  rewrite IH. apply Permutation_swap.
Qed.

Lemma sort_by_Permutation {A} (before : A -> A -> bool) (l : list A) :
  Photos.sort_by before l ≡ₚ l.
Proof.
  induction l as [|x l IH]; cbn; [reflexivity|].
  rewrite insert_by_Permutation. by rewrite IH.
Qed.

Lemma sort_by_length {A} (before : A -> A -> bool) (l : list A) :
  length (Photos.sort_by before l) = length l.
Proof. by rewrite sort_by_Permutation. Qed.

(** ** Atlas builder *)

Section AtlasFacts.

Import Photos AtlasSpec.

Variable sharp : string -> Result SharpImage.
Variable basename : string -> string.
Variable basename_ext : string -> string -> string.
Variable extname : string -> string.
Variable join : list string -> string.
Variable toLowerCase : string -> string.
Variable encode : string -> Z -> string -> Result Z.
Variable resizeTile : string -> Result unit.
Variable readdir : string -> Result (list string).
Variable DATA_DIR : string.

Local Abbreviation variantPath := (AtlasSpec.variantPath extname join DATA_DIR).
(** The photo's mid-size variant file exists. *)
Local Abbreviation hasVariant s photo := (variantPath photo ∈ files s).

Lemma atlas_loop_result (tilesPerRow : Z) (s : Store) (rows : list PhotoRow) :
  forall (i : Z) (compositeInputs : list CompositeInput) (acc : list AtlasTile),
  (forall photo, photo ∈ rows -> hasVariant s photo ->
                 resizeTile (variantPath photo) = Ok tt) ->
  exists inputs,
    atlas_loop extname join resizeTile DATA_DIR tilesPerRow rows i compositeInputs acc s
    = (Ok (inputs,
           acc ++ ((fun p => placedTile tilesPerRow p.1 p.2) <$>
                   filter (fun p => hasVariant s p.2)
                          (zip (seqZ i (Z.of_nat (length rows))) rows))), s).
Proof.
  induction rows as [|photo rest IH]; intros i inputs acc Hres.
  - exists inputs. cbn. by rewrite app_nil_r.
  - cbn [atlas_loop length]. rewrite Nat2Z.inj_succ, seqZ_cons by lia.
    replace (Z.pred (Z.succ (Z.of_nat (length rest)))) with (Z.of_nat (length rest)) by lia.
    cbn [zip zip_with]. rewrite filter_cons. cbn [snd fst].
    unfold bind at 1, get_store at 1.
    fold (variantPath photo).
    case_bool_decide as Hin.
    + rewrite decide_True by exact Hin.
      unfold bind at 1, lift at 1.
      rewrite (Hres photo) by (first [apply list_elem_of_here | exact Hin]).
      edestruct (IH (Z.succ i)) as [inputs' Heq];
        [intros p Hp; apply Hres; by apply list_elem_of_further|].
      replace (i + 1) with (Z.succ i) by lia.
      eexists. rewrite Heq. rewrite fmap_cons, <- app_assoc. reflexivity.
    + rewrite decide_False by exact Hin.
      edestruct (IH (Z.succ i)) as [inputs' Heq];
        [intros p Hp; apply Hres; by apply list_elem_of_further|].
      replace (i + 1) with (Z.succ i) by lia.
      eexists. rewrite Heq. reflexivity.
Qed.


Lemma ceil_sqrt_pos (n : Z) : 1 <= n -> 1 <= ceil_sqrt n.
Proof.
  intros Hn. unfold ceil_sqrt. pose proof (Z.sqrt_spec n ltac:(lia)) as Hs.
  cbn zeta in Hs. destruct (Z.eqb_spec (Z.sqrt n * Z.sqrt n) n); nia.
Qed.

Lemma ceil_sqrt_covers (n : Z) : 0 <= n -> n <= ceil_sqrt n * ceil_sqrt n.
Proof.
  intros Hn. unfold ceil_sqrt. pose proof (Z.sqrt_spec n Hn) as Hs.
  cbn zeta in Hs. destruct (Z.eqb_spec (Z.sqrt n * Z.sqrt n) n); nia.
Qed.

Lemma ceil_sqrt_le_32 (n : Z) : 0 <= n <= 1024 -> ceil_sqrt n <= 32.
Proof.
  intros Hn. unfold ceil_sqrt. pose proof (Z.sqrt_spec n ltac:(lia)) as Hs.
  cbn zeta in Hs. pose proof (Z.sqrt_nonneg n).
  destruct (Z.eqb_spec (Z.sqrt n * Z.sqrt n) n); nia.
Qed.

Lemma placedTile_inside (doc : AtlasData) (n i : Z) (photo : PhotoRow) :
  1 <= n <= 1024 -> 0 <= i < n ->
  atlas_width doc = Z.min (ceil_sqrt n * ATLAS_TILE_SIZE) ATLAS_MAX_SIZE ->
  atlas_height doc = ceil_div n (ceil_sqrt n) * ATLAS_TILE_SIZE ->
  insideAtlas doc (placedTile (ceil_sqrt n) i photo).
Proof.
  intros Hn Hi Hw Hh. unfold insideAtlas, placedTile. cbn.
  rewrite Hw, Hh. unfold ATLAS_TILE_SIZE, ATLAS_MAX_SIZE, ceil_div.
  pose proof (ceil_sqrt_pos n ltac:(lia)) as Hp.
  pose proof (ceil_sqrt_le_32 n ltac:(lia)) as H32.
  pose proof (Z.mod_pos_bound i (ceil_sqrt n) ltac:(lia)) as Hm.
  assert (Hq : 0 <= i / ceil_sqrt n) by (apply Z.div_pos; lia).
  assert (Hr : i / ceil_sqrt n + 1 <= (n + ceil_sqrt n - 1) / ceil_sqrt n).
  { replace (n + ceil_sqrt n - 1) with ((n - 1) + 1 * ceil_sqrt n) by lia.
    rewrite Z.div_add by lia.
    assert (i / ceil_sqrt n <= (n - 1) / ceil_sqrt n) by (apply Z.div_le_mono; lia).
    lia. }
  lia.
Qed.

Local Abbreviation buildAtlas :=
  (Photos.buildAtlas extname join resizeTile DATA_DIR).

(** What a build over a non-empty photo table produces, when every variant
    file that exists can be read. *)
Lemma buildAtlas_document (s : Store) :
  photos s <> [] ->
  (forall photo, photo ∈ photos s -> hasVariant s photo ->
                 resizeTile (variantPath photo) = Ok tt) ->
  exists s' doc,
    buildAtlas s = (Ok tt, s') /\ atlas_json s' = Some doc /\
    let rows := sort_by atlas_order (photos s) in
    let n := Z.of_nat (length (photos s)) in
    tiles doc = ((fun p => placedTile (ceil_sqrt n) p.1 p.2) <$>
                 filter (fun p => hasVariant s p.2) (zip (seqZ 0 n) rows)) /\
    atlas_width doc = Z.min (ceil_sqrt n * ATLAS_TILE_SIZE) ATLAS_MAX_SIZE /\
    atlas_height doc = ceil_div n (ceil_sqrt n) * ATLAS_TILE_SIZE /\
    atlas_tileSize doc = ATLAS_TILE_SIZE.
Proof.
  intros Hne Hres. unfold Photos.buildAtlas.
  unfold bind at 1, get_store at 1.
  rewrite sort_by_length.
  destruct (Z.eqb_spec (Z.of_nat (length (photos s))) 0) as [E|E].
  { destruct (photos s); [congruence|cbn in E; lia]. }
  set (rows := sort_by atlas_order (photos s)).
  set (n := Z.of_nat (length (photos s))).
  destruct (atlas_loop_result (ceil_sqrt n) s rows 0 [] []) as [inputs Heq].
  { intros photo Hin. apply Hres. subst rows.
    by rewrite sort_by_Permutation in Hin. }
  unfold bind at 1. rewrite Heq. unfold saveAtlas. cbn [fst snd].
  do 2 eexists. split; [reflexivity|]. cbn [atlas_json]. split; [reflexivity|].
  cbn [tiles atlas_width atlas_height atlas_tileSize app].
  subst rows. rewrite sort_by_length. fold n. auto.
Qed.


(** Up to 1024 photos every tile rectangle lies inside the atlas image. *)
Lemma buildAtlas_tiles_inside_upto_1024 (s : Store) :
  photos s <> [] -> (length (photos s) <= 1024)%nat ->
  (forall photo, photo ∈ photos s -> hasVariant s photo ->
                 resizeTile (variantPath photo) = Ok tt) ->
  exists s' doc,
    buildAtlas s = (Ok tt, s') /\ atlas_json s' = Some doc /\
    Forall (insideAtlas doc) (tiles doc).
Proof.
  intros Hne Hlen Hres.
  destruct (buildAtlas_document s Hne Hres) as (s' & doc & Hb & Hj & Ht & Hw & Hh & _).
  exists s', doc. split; [exact Hb|]. split; [exact Hj|].
  cbn zeta in *. rewrite Ht. apply Forall_fmap, Forall_forall.
  intros [i photo] Hin. apply list_elem_of_filter in Hin as [_ Hin].
  apply elem_of_zip_l in Hin. cbn in Hin. apply elem_of_seqZ in Hin.
  assert (Hn : 1 <= Z.of_nat (length (photos s)) <= 1024).
  { destruct (photos s); [congruence|cbn [length] in *; lia]. }
  cbn. apply placedTile_inside; [exact Hn|lia|assumption|assumption].
Qed.

End AtlasFacts.

(** ** The atlas builder on sample stores *)

Section AtlasSamples.

Import Photos AtlasSpec.

Local Abbreviation buildAtlas :=
  (Photos.buildAtlas Samples.extname Samples.join Samples.resizeTile Samples.DATA_DIR).


(** The build over 1025 photos: 33 columns, an image 4096 pixels wide, and
    the tile at index 32 at x = 4096. *)
Lemma buildAtlas_1025_photos :
  (doc ← atlas_json (buildAtlas (Samples.numbered 1025)).2;
   tile ← tiles doc !! 32%nat;
   Some (length (tiles doc), atlas_width doc, atlas_height doc,
         tile_x tile, tile_y tile, tile_width tile, tile_height tile))
  = Some (1025%nat, 4096, 4096, 4096, 0, 128, 128).
Proof. vm_compute. reflexivity. Qed.

(** C2. With 1025 photos the grid has 33 columns of 128 pixels while the
    atlas image stays 4096 pixels wide: tilesPerRow times the cell size
    exceeds the maximum width, and the tile at index 32 is placed at
    x = 4096, outside the image. *)
Theorem buildAtlas_1025_photos_tile_outside :
  ceil_sqrt 1025 * ATLAS_TILE_SIZE > ATLAS_MAX_SIZE /\
  match atlas_json (buildAtlas (Samples.numbered 1025)).2 with
  | Some doc =>
      atlas_width doc = 4096 /\
      (tile_x <$> tiles doc !! 32%nat) = Some 4096 /\
      ~ Forall (insideAtlas doc) (tiles doc)
  | None => False
  end.
Proof.
  split; [vm_compute; reflexivity|].
  pose proof buildAtlas_1025_photos as H.
  destruct (atlas_json (buildAtlas (Samples.numbered 1025)).2) as [doc|];
    [|discriminate].
  cbn [mbind option_bind] in H.
  destruct (tiles doc !! 32%nat) as [tile|] eqn:Et; [|discriminate].
  cbn [mbind option_bind] in H. injection H as _ Hw _ Hx _ Hwd _.
  split; [exact Hw|]. split; [cbn; by rewrite Hx|].
  intros Hall. rewrite Forall_lookup in Hall. specialize (Hall _ _ Et).
  unfold insideAtlas in Hall. lia.
Qed.

End AtlasSamples.

(** ** Batches: upload and reindex *)

Section BatchFacts.

Import Photos.

Variable sharp : string -> Result SharpImage.
Variable basename : string -> string.
Variable basename_ext : string -> string -> string.
Variable extname : string -> string.
Variable join : list string -> string.
Variable toLowerCase : string -> string.
Variable encode : string -> Z -> string -> Result Z.
Variable readdir : string -> Result (list string).
Variable DATA_DIR : string.

Local Abbreviation processPhoto :=
  (Photos.processPhoto sharp basename basename_ext extname join encode DATA_DIR).
Local Abbreviation upload_loop :=
  (Photos.upload_loop sharp basename basename_ext extname join encode DATA_DIR).
Local Abbreviation handleUpload :=
  (Photos.handleUpload sharp basename basename_ext extname join encode DATA_DIR).
Local Abbreviation reindex_loop :=
  (Photos.reindex_loop sharp basename basename_ext extname join toLowerCase encode DATA_DIR).

(** The upload loop never throws: a failing file becomes a failure entry
    and the loop goes on. *)
Lemma upload_loop_total (uploaded : list UploadedFile) :
  forall (results : list UploadResult) (s : Store),
  exists rs s',
    upload_loop uploaded results s = (Ok (results ++ rs), s') /\
    Forall2 (fun file r =>
               res_filename r = originalname file /\
               (res_success r = true <-> is_Some (res_photoId r)) /\
               (res_success r = false <-> is_Some (res_error r)))
            uploaded rs.
Proof.
  induction uploaded as [|file rest IH]; intros results s.
  - exists [], s. cbn. rewrite app_nil_r. split; [reflexivity|constructor].
  - cbn [Photos.upload_loop]. unfold bind at 1, try_catch at 1, bind at 1.
    destruct (processPhoto (path file) s) as [[photoId|e] s1]; cbn [ret];
      match goal with
      | |- context [upload_loop rest (results ++ [?r]) s1] =>
          destruct (IH (results ++ [r]) s1) as (rs & s' & Heq & Hall);
          exists (r :: rs), s'
      end;
      rewrite Heq, <- app_assoc; (split; [reflexivity|]);
      (constructor; [|exact Hall]); cbn; repeat split;
      try done; try (by eexists); intros [x Hx]; discriminate.
Qed.

(** Every upload request with a file array is answered 200 with one result
    per file. *)
Lemma handleUpload_reports_every_file (uploaded : list UploadedFile) (s : Store) :
  exists message results s',
    handleUpload (Some uploaded) s
    = ({| status := 200; body := UploadBody true message results |}, s') /\
    length results = length uploaded.
Proof.
  unfold Photos.handleUpload.
  destruct (upload_loop_total uploaded [] s) as (rs & s' & Heq & Hall).
  rewrite Heq. cbn [app]. do 3 eexists. split; [reflexivity|].
  symmetry. exact (Forall2_length _ _ _ Hall).
Qed.

(** The reindex loop has no try / catch: the first photo that fails ends the
    loop, whatever files follow. *)
Lemma reindex_loop_aborts (file : string) (rest : list string) (count : Z)
    (s s' : Store) (e : string) :
  existsb (String.eqb (toLowerCase (extname file)))
          [".jpg"; ".jpeg"; ".png"; ".webp"]%string = true ->
  find (fun row => String.eqb (filename (row_meta row)) file) (photos s) = None ->
  processPhoto (join [ORIGINAL_DIR join DATA_DIR; file]) s = (Err e, s') ->
  reindex_loop (file :: rest) count s = (Err e, s').
Proof.
  intros Hext Hnew Hfail. cbn [Photos.reindex_loop]. rewrite Hext. cbn [negb].
  unfold bind at 1, get_store at 1. rewrite Hnew.
  unfold bind at 1. by rewrite Hfail.
Qed.

End BatchFacts.

Section BatchSamples.

Import Photos.

Local Abbreviation handleReindexPhotos :=
  (Photos.handleReindexPhotos Samples.sharp Samples.basename Samples.basename_ext
     Samples.extname Samples.join Samples.toLowerCase Samples.encode Samples.readdir
     Samples.DATA_DIR).
Local Abbreviation handleUpload :=
  (Photos.handleUpload Samples.sharp Samples.basename Samples.basename_ext
     Samples.extname Samples.join Samples.encode Samples.DATA_DIR).

(** C8. A directory holding bad.jpg, which the decoder rejects, and good.jpg:
    the reindex is answered 500 with the decoder's message, without a
    per-file result, and good.jpg is not indexed.  The same two files sent
    as an upload are answered 200 with a failure entry for bad.jpg and a
    success entry for good.jpg, which is stored. *)
Theorem reindex_aborts_on_first_failure :
  let reindexed := handleReindexPhotos Samples.emptyStore in
  let uploaded := handleUpload (Some Samples.uploads) Samples.emptyStore in
  reindexed.1 = {| status := 500;
                   body := ErrorBody "Input file contains unsupported image format" |}
  /\ photos reindexed.2 = []
  /\ uploaded.1 =
       {| status := 200;
          body := UploadBody true "Processed 1 of 2 files"
            [ {| res_filename := "bad.jpg"; res_photoId := None; res_success := false;
                 res_error := Some "Input file contains unsupported image format"%string |};
              {| res_filename := "good.jpg"; res_photoId := Some 1; res_success := true;
                 res_error := None |} ] |}
  /\ (fun row => filename (row_meta row)) <$> photos uploaded.2 = ["good.jpg"%string].
Proof. vm_compute. repeat split; reflexivity. Qed.

End BatchSamples.

(** ** Glyph mask *)

Section MaskFacts.

Import GlyphMap GlyphSpec.

Lemma js_get_Some {A} (l : list A) (i : Z) (a : A) :
  js_get l i = Some a <-> 0 <= i /\ l !! Z.to_nat i = Some a.
Proof.
  unfold js_get. destruct (Z.ltb_spec i 0); split.
  - discriminate.
  - intros [? _]. lia.
  - intros H'. split; [lia|exact H'].
  - intros [_ H']. exact H'.
Qed.








(** The mask dimensions need less: they are the same as soon as the two
    runs measure the same text width, whatever is drawn. *)
Lemma generateTextMask_dimensions (c1 c2 : Canvas) (text : string) (scale : Q)
    (fontFamily : string) (m1 m2 : GlyphMask) :
  (forall font, measureText c1 font text = measureText c2 font text) ->
  generateTextMask c1 text scale fontFamily = Ok m1 ->
  generateTextMask c2 text scale fontFamily = Ok m2 ->
  width m1 = width m2 /\ height m1 = height m2.
Proof.
  intros Hmeasure. unfold generateTextMask. rewrite Hmeasure.
  repeat case_match; try discriminate.
  intros [= <-] [= <-]. split; reflexivity.
Qed.

End MaskFacts.

(** ** Tile-to-glyph mapper *)

Section MapperFacts.

Import GlyphMap GlyphSpec.

Variable Math_random : nat -> Q.

Lemma swap_length {T} (a : list T) (i j : nat) : length (swap a i j) = length a.
Proof.
  unfold swap. destruct (a !! i), (a !! j); try reflexivity.
  by rewrite !length_insert.
Qed.

Lemma shuffle_loop_length {T} (i : nat) :
  forall (shuffled : list T) (k : nat),
  length (shuffle_loop Math_random i shuffled k).1 = length shuffled.
Proof.
  induction i as [|i IH]; intros shuffled k; [reflexivity|].
  cbn [shuffle_loop]. rewrite IH. apply swap_length.
Qed.

Lemma shuffleArray_length {T} (array : list T) (k : nat) :
  length (shuffleArray Math_random array k).1 = length array.
Proof. apply shuffle_loop_length. Qed.

Lemma insert_cons_Permutation {T} (l : list T) (j : nat) (a h : T) :
  l !! j = Some a -> a :: <[j := h]> l ≡ₚ h :: l.
Proof.
  revert j. induction l as [|b l IH]; intros [|j] Hj; try discriminate.
  - cbn in Hj. injection Hj as ->. apply Permutation_swap.
  - cbn in Hj. cbn [insert list_insert].
    etrans; [apply Permutation_swap|].
    etrans; [apply Permutation_skip, (IH j Hj)|]. apply Permutation_swap.
Qed.

Lemma swap_Permutation {T} (a : list T) :
  forall i j, swap a i j ≡ₚ a.
Proof.
  unfold swap. induction a as [|h tl IH]; intros i j; [by destruct i|].
  destruct i as [|i], j as [|j]; cbn.
  - reflexivity.
  - destruct (tl !! j) as [aj|] eqn:Hj; [|reflexivity]. by apply insert_cons_Permutation.
  - destruct (tl !! i) as [ai|] eqn:Hi; [|reflexivity]. by apply insert_cons_Permutation.
  - specialize (IH i j). destruct (tl !! i), (tl !! j); try reflexivity.
    by apply Permutation_skip.
Qed.

Lemma shuffle_loop_Permutation {T} (i : nat) :
  forall (shuffled : list T) (k : nat),
  (shuffle_loop Math_random i shuffled k).1 ≡ₚ shuffled.
Proof.
  induction i as [|i IH]; intros shuffled k; [reflexivity|].
  cbn [shuffle_loop]. rewrite IH. apply swap_Permutation.
Qed.

(** Each ordering is a rearrangement of all the tiles of the atlas. *)
Lemma shuffledOrderings_Permutation (atlasData : Photos.AtlasData) :
  (shuffledOrderings Math_random atlasData).1 ≡ₚ Photos.tiles atlasData /\
  (shuffledOrderings Math_random atlasData).2 ≡ₚ Photos.tiles atlasData.
Proof.
  unfold shuffledOrderings, shuffleArray, array_sort. cbn [fst snd].
  by rewrite !shuffle_loop_Permutation, !sort_by_Permutation.
Qed.

(** Both orderings hold as many tiles as the atlas. *)
Lemma shuffledOrderings_length (atlasData : Photos.AtlasData) :
  length (shuffledOrderings Math_random atlasData).1 = length (Photos.tiles atlasData) /\
  length (shuffledOrderings Math_random atlasData).2 = length (Photos.tiles atlasData).
Proof.
  unfold shuffledOrderings. cbn [fst snd].
  rewrite !shuffleArray_length. unfold array_sort.
  by rewrite !sort_by_length.
Qed.

Section Cells.

Variable mask : GlyphMask.
Variables nForeground nBackground : Z.
Variable tileSize : Q.

Local Abbreviation stepCell :=
  (fun (st : MapState) (c : Z * Z) =>
     mapCell mask nForeground nBackground tileSize c.1 c.2 st).

Lemma foldl_fmap_cells (ty : Z) (columns : list Z) :
  forall st,
  foldl (fun st tx => mapCell mask nForeground nBackground tileSize ty tx st) st columns
  = foldl stepCell st ((fun tx => (ty, tx)) <$> columns).
Proof. induction columns as [|tx columns IH]; intros st; [reflexivity|]. cbn. apply IH. Qed.

Lemma foldl_rows_cells (tilesX : Z) (rows : list Z) :
  forall st,
  foldl (mapRow mask nForeground nBackground tileSize tilesX) st rows
  = foldl stepCell st (ty ← rows; (fun tx => (ty, tx)) <$> seqZ 0 tilesX).
Proof.
  induction rows as [|ty rows IH]; intros st; [reflexivity|].
  rewrite bind_cons, foldl_app. cbn [foldl]. rewrite IH. f_equal.
  apply foldl_fmap_cells.
Qed.

Lemma drawn_snoc (fg : bool) (l : list (Z * Z)) (c : Z * Z) :
  drawn mask tileSize fg (l ++ [c])
  = drawn mask tileSize fg l
    + (if Bool.eqb (sampledForeground mask tileSize c) fg then 1 else 0).
Proof.
  unfold drawn. rewrite filter_app, length_app, filter_cons, filter_nil.
  destruct (decide (sampledForeground mask tileSize c = fg)) as [Hc|Hc].
  - rewrite Hc, Bool.eqb_reflx. cbn [length]. lia.
  - apply Bool.eqb_false_iff in Hc. rewrite Hc. cbn [length]. lia.
Qed.

(** The loop state after the cells [l]: the counters are the numbers of
    cells of each kind, the mappings the round-robin assignment. *)
Lemma foldl_cells_state (l : list (Z * Z)) :
  foldl stepCell {| foregroundIndex := 0; backgroundIndex := 0; mappings := [] |} l
  = {| foregroundIndex := drawn mask tileSize true l;
       backgroundIndex := drawn mask tileSize false l;
       mappings := imap (assignment mask nForeground nBackground tileSize l) l |}.
Proof.
  induction l as [|c l IH] using rev_ind; [reflexivity|].
  rewrite foldl_app. cbn [foldl]. rewrite IH. clear IH.
  assert (Himap : imap (assignment mask nForeground nBackground tileSize (l ++ [c])) (l ++ [c])
          = imap (assignment mask nForeground nBackground tileSize l) l
            ++ [assignment mask nForeground nBackground tileSize (l ++ [c]) (length l) c]).
  { rewrite imap_app. cbn [imap]. rewrite Nat.add_0_r. f_equal.
    apply imap_ext. intros k x Hk. unfold assignment.
    rewrite take_app_le; [reflexivity|].
    apply lookup_lt_Some in Hk. lia. }
  rewrite Himap. unfold assignment at 3. rewrite take_app_length.
  rewrite !drawn_snoc.
  unfold mapCell. cbn [foregroundIndex backgroundIndex mappings].
  fold (sampledForeground mask tileSize c).
  destruct (sampledForeground mask tileSize c); cbn [Bool.eqb];
    f_equal; try lia; repeat f_equal; lia.
Qed.

End Cells.

(** The mapper is the round-robin assignment over the grid; both moduli
    are the number of tiles of the atlas. *)
Lemma mapTilesToGlyph_assignment (mask : GlyphMask) (atlasData : Photos.AtlasData)
    (tileSize : Q) :
  let tilesX := Qceiling (inject_Z (width mask) / tileSize) in
  let tilesY := Qceiling (inject_Z (height mask) / tileSize) in
  let n := Z.of_nat (length (Photos.tiles atlasData)) in
  mapTilesToGlyph Math_random mask atlasData tileSize
  = imap (assignment mask n n tileSize (cells tilesX tilesY)) (cells tilesX tilesY).
Proof.
  intros tilesX tilesY n. unfold mapTilesToGlyph. fold tilesX tilesY.
  destruct (shuffledOrderings_length atlasData) as [-> ->]. fold n.
  rewrite foldl_rows_cells. fold (cells tilesX tilesY).
  by rewrite foldl_cells_state.
Qed.

End MapperFacts.

Section GridFacts.

Import GlyphMap GlyphSpec.

Lemma elem_of_cells (tilesX tilesY : Z) (c : Z * Z) :
  c ∈ cells tilesX tilesY <-> (0 <= c.1 < tilesY /\ 0 <= c.2 < tilesX).
Proof.
  unfold cells. rewrite list_elem_of_bind. split.
  - intros (ty & Hc & Hty). apply list_elem_of_fmap in Hc as (tx & -> & Htx).
    apply elem_of_seqZ in Hty. apply elem_of_seqZ in Htx. cbn. lia.
  - intros [Hty Htx]. exists c.1. split.
    + apply list_elem_of_fmap. exists c.2. split; [by destruct c|].
      apply elem_of_seqZ. lia.
    + apply elem_of_seqZ. lia.
Qed.

Lemma length_cells (tilesX tilesY : Z) :
  length (cells tilesX tilesY) = (Z.to_nat tilesY * Z.to_nat tilesX)%nat.
Proof.
  unfold cells. rewrite <- (length_seqZ 0 tilesY).
  induction (seqZ 0 tilesY) as [|ty rows IH]; [reflexivity|].
  rewrite bind_cons, length_app, IH, length_fmap, length_seqZ. cbn [length]. lia.
Qed.

Lemma Qfloor_nonneg (q : Q) : (0 <= q)%Q -> 0 <= Qfloor q.
Proof. intros H. change 0 with (Qfloor 0). by apply Qfloor_resp_le. Qed.

Lemma Qceiling_nonneg (q : Q) : (0 <= q)%Q -> 0 <= Qceiling q.
Proof. intros H. change 0 with (Qceiling 0). by apply Qceiling_resp_le. Qed.

(** The clamp keeps the centre sample of every cell inside the mask. *)
Lemma sample_in_bounds (mask : GlyphMask) (tileSize : Q) (tx ty : Z) :
  1 <= width mask -> 1 <= height mask -> (0 < tileSize)%Q -> 0 <= tx -> 0 <= ty ->
  let sampleX := Z.min (Qfloor (inject_Z tx * tileSize + tileSize / 2)) (width mask - 1) in
  let sampleY := Z.min (Qfloor (inject_Z ty * tileSize + tileSize / 2)) (height mask - 1) in
  0 <= sampleX <= width mask - 1 /\ 0 <= sampleY <= height mask - 1 /\
  sampleIndex mask tileSize tx ty = sampleY * width mask + sampleX /\
  0 <= sampleIndex mask tileSize tx ty < width mask * height mask.
Proof.
  intros Hw Hh Hts Htx Hty sampleX sampleY.
  assert (Hcentre : forall t, 0 <= t -> 0 <= Qfloor (inject_Z t * tileSize + tileSize / 2)).
  { intros t Ht. apply Qfloor_nonneg.
    assert (0 <= inject_Z t)%Q by (change 0%Q with (inject_Z 0); by rewrite <- Zle_Qle).
    assert (0 <= inject_Z t * tileSize)%Q by (apply Qmult_le_0_compat; lra).
    assert (0 <= tileSize / 2)%Q by (apply Qle_shift_div_l; lra).
    lra. }
  pose proof (Hcentre tx Htx) as Hx. pose proof (Hcentre ty Hty) as Hy.
  assert (HX : 0 <= sampleX <= width mask - 1) by (subst sampleX; lia).
  assert (HY : 0 <= sampleY <= height mask - 1) by (subst sampleY; lia).
  split; [exact HX|]. split; [exact HY|].
  unfold sampleIndex. fold sampleX sampleY. split; [reflexivity|]. nia.
Qed.

(** C10. For a mask of width and height at least 1 with one pixel per
    position, and a tile size of at least 1, the mapper returns
    ceil(width / tileSize) * ceil(height / tileSize) entries, one per cell,
    and the centre sample of each cell is clamped to at most
    (width - 1, height - 1), so that the foreground flag of every entry comes
    from a pixel that exists. *)
Theorem mapTilesToGlyph_reads_in_bounds (Math_random : nat -> Q) (mask : GlyphMask)
    (atlasData : Photos.AtlasData) (tileSize : Q) :
  1 <= width mask -> 1 <= height mask -> (1 <= tileSize)%Q -> wellFormed mask ->
  let tilesX := Qceiling (inject_Z (width mask) / tileSize) in
  let tilesY := Qceiling (inject_Z (height mask) / tileSize) in
  length (mapTilesToGlyph Math_random mask atlasData tileSize) = Z.to_nat (tilesX * tilesY)
  /\ forall k m,
       mapTilesToGlyph Math_random mask atlasData tileSize !! k = Some m ->
       exists ty tx,
         0 <= ty < tilesY /\ 0 <= tx < tilesX /\
         x m = (inject_Z tx * tileSize)%Q /\ y m = (inject_Z ty * tileSize)%Q /\
         let sampleX := Z.min (Qfloor (x m + tileSize / 2)) (width mask - 1) in
         let sampleY := Z.min (Qfloor (y m + tileSize / 2)) (height mask - 1) in
         0 <= sampleX <= width mask - 1 /\ 0 <= sampleY <= height mask - 1 /\
         (Z.to_nat (sampleY * width mask + sampleX) < length (pixels mask))%nat /\
         exists v,
           pixels mask !! Z.to_nat (sampleY * width mask + sampleX) = Some v /\
           isForeground m = bool_decide (v = 1).
Proof.
  intros Hw Hh Hts Hwf tilesX tilesY.
  rewrite mapTilesToGlyph_assignment. fold tilesX tilesY.
  assert (HX : 0 <= tilesX).
  { apply Qceiling_nonneg, Qle_shift_div_l; [lra|].
    rewrite Qmult_0_l. change 0%Q with (inject_Z 0). rewrite <- Zle_Qle. lia. }
  assert (HY : 0 <= tilesY).
  { apply Qceiling_nonneg, Qle_shift_div_l; [lra|].
    rewrite Qmult_0_l. change 0%Q with (inject_Z 0). rewrite <- Zle_Qle. lia. }
  split.
  { rewrite length_imap, length_cells. lia. }
  intros k m Hk. rewrite list_lookup_imap in Hk.
  destruct (cells tilesX tilesY !! k) as [[ty tx]|] eqn:Hc; [|discriminate].
  cbn in Hk. injection Hk as <-.
  apply list_elem_of_lookup_2, elem_of_cells in Hc. cbn in Hc.
  exists ty, tx. split; [lia|]. split; [lia|].
  cbn [x y assignment fst snd isForeground]. split; [reflexivity|]. split; [reflexivity|].
  destruct (sample_in_bounds mask tileSize tx ty Hw Hh ltac:(lra) ltac:(lia) ltac:(lia))
    as (Hsx & Hsy & Hidx & Hrange).
  cbn zeta in *. split; [exact Hsx|]. split; [exact Hsy|].
  rewrite <- Hidx.
  assert (Hlt : (Z.to_nat (sampleIndex mask tileSize tx ty) < length (pixels mask))%nat).
  { rewrite Hwf. lia. }
  split; [exact Hlt|].
  destruct (lookup_lt_is_Some_2 _ _ Hlt) as [v Hv].
  exists v. split; [exact Hv|].
  unfold sampledForeground, js_get. cbn [fst snd].
  destruct (Z.ltb_spec (sampleIndex mask tileSize tx ty) 0); [lia|].
  rewrite Hv. case_bool_decide as Hv1; [by subst v|].
  destruct v as [|[]|]; try reflexivity. congruence.
Qed.

(** The theorem on the 16 x 19 sample mask with tiles of 8 pixels: 6 entries. *)
Lemma mapTilesToGlyph_reads_in_bounds_witness :
  length (mapTilesToGlyph Samples.threeQuarters Samples.halfMask Samples.twoTiles 8) = 6%nat.
Proof.
  assert (Hw : 1 <= width Samples.halfMask) by (vm_compute; discriminate).
  assert (Hh : 1 <= height Samples.halfMask) by (vm_compute; discriminate).
  assert (Hts : (1 <= 8)%Q) by discriminate.
  assert (Hwf : wellFormed Samples.halfMask) by (vm_compute; reflexivity).
  destruct (mapTilesToGlyph_reads_in_bounds Samples.threeQuarters Samples.halfMask
              Samples.twoTiles 8 Hw Hh Hts Hwf) as [Hlen _].
  rewrite Hlen. vm_compute. reflexivity.
Defined.

(** With at least one tile in the atlas every returned index is a number
    in [0, tileCount), so the lookup in the atlas finds a tile. *)
Lemma mapTilesToGlyph_index_in_range (Math_random : nat -> Q) (mask : GlyphMask)
    (atlasData : Photos.AtlasData) (tileSize : Q) (m : TileMapping) :
  Photos.tiles atlasData <> [] ->
  m ∈ mapTilesToGlyph Math_random mask atlasData tileSize ->
  exists i,
    tileIndex m = Idx i /\ 0 <= i < Z.of_nat (length (Photos.tiles atlasData)) /\
    is_Some (js_index (Photos.tiles atlasData) (tileIndex m)).
Proof.
  intros Hne Hm. rewrite mapTilesToGlyph_assignment in Hm.
  apply list_elem_of_lookup_1 in Hm as [k Hk]. rewrite list_lookup_imap in Hk.
  destruct (_ !! k) as [c|]; [|discriminate]. cbn in Hk. injection Hk as <-.
  set (n := Z.of_nat (length (Photos.tiles atlasData))).
  assert (Hn : 0 < n) by (subst n; destruct (Photos.tiles atlasData); [congruence|cbn; lia]).
  cbn [tileIndex assignment].
  match goal with |- context [js_mod ?a (if ?fg then n else n)] =>
    exists (a mod n); replace (if fg then n else n) with n by (by destruct fg);
    pose proof (Z.mod_pos_bound a n Hn) as Hmod
  end.
  unfold js_mod. destruct (Z.eqb_spec n 0); [lia|].
  split; [reflexivity|]. split; [exact Hmod|].
  cbn [js_index]. unfold js_get.
  match goal with |- context [?a <? 0] => destruct (Z.ltb_spec a 0) end; [lia|].
  apply lookup_lt_is_Some_2. subst n. lia.
Qed.

(** The returned mapping depends on the atlas through its number of tiles
    only, and not at all on the random source: the two sorted and shuffled
    orderings do not reach the result. *)
Lemma mapTilesToGlyph_ignores_orderings (random1 random2 : nat -> Q) (mask : GlyphMask)
    (atlas1 atlas2 : Photos.AtlasData) (tileSize : Q) :
  length (Photos.tiles atlas1) = length (Photos.tiles atlas2) ->
  mapTilesToGlyph random1 mask atlas1 tileSize = mapTilesToGlyph random2 mask atlas2 tileSize.
Proof. intros Hlen. rewrite !mapTilesToGlyph_assignment. by rewrite Hlen. Qed.

End GridFacts.

(** ** Scene construction *)

Section SceneSamples.

Import PixiTicker.

(** C1. An atlas of a bright tile (id 1, index 0) and a dark tile (id 2,
    index 1), a mask whose left column of cells is foreground and whose
    right column is background, and a shuffle that keeps both orderings as
    sorted: foreground [bright, dark], background [dark, bright].  Every
    returned index is in range, and each kind counts round-robin; but the
    index is a position in the shuffled ordering of the cell's kind, and the
    scene reads it as a position in atlas.tiles.  The first background cell
    gets index 0, which is the dark tile in the background ordering, and is
    shown the bright tile. *)
Theorem background_cell_shows_foreground_tile :
  let orderings := GlyphMap.shuffledOrderings Samples.threeQuarters Samples.twoTiles in
  let mappings :=
    GlyphMap.mapTilesToGlyph Samples.threeQuarters Samples.halfMask Samples.twoTiles 8 in
  init Samples.halfCanvas Samples.threeQuarters (Ok Samples.screen) (Ok Samples.twoTiles)
       (new_ticker Samples.config 0) = Ok Samples.scene
  /\ Photos.tile_id <$> orderings.1 = [1; 2]
  /\ Photos.tile_id <$> orderings.2 = [2; 1]
  /\ (fun m => (GlyphMap.isForeground m, GlyphMap.tileIndex m)) <$> mappings
     = [(true, Idx 0); (false, Idx 0); (true, Idx 1); (false, Idx 1);
        (true, Idx 0); (false, Idx 0)]
  /\ (Photos.tile_id <$> js_index orderings.2 (Idx 0)) = Some 2
  /\ (fun s => Photos.tile_id <$> texture s) <$> take 6 (sprites Samples.scene)
     = [Some 1; Some 1; Some 2; Some 2; Some 1; Some 1].
Proof. vm_compute. repeat split; reflexivity. Qed.

(** The shuffle itself does depend on the random source: the two sources
    order the foreground tiles differently. *)
Lemma shuffle_depends_on_random :
  Photos.tile_id <$> (GlyphMap.shuffledOrderings Samples.threeQuarters Samples.twoTiles).1
  = [1; 2]
  /\ Photos.tile_id <$> (GlyphMap.shuffledOrderings Samples.oneQuarter Samples.twoTiles).1
     = [2; 1].
Proof. split; vm_compute; reflexivity. Qed.

End SceneSamples.

(** ** Scrolling *)

Section ScrollFacts.

Import PixiTicker.



(** The offset a scrolling tick at [now] advances to, before the reset. *)
Local Abbreviation advanced t now :=
  (scrollOffset t + scrollSpeed (config t) * ((now - lastTime t) / 1000)
                    * direction (config t))%Q.




End ScrollFacts.

Section TickerSamples.

Import PixiTicker.


(** C3. Sprite 0 of the sample scene was saved at x = 0.  Hovered at scroll
    offset 50 and released, it comes to rest at x = -50: y and scale are the
    saved ones, x is the saved x minus the scroll offset. *)
Theorem hover_restores_x_shifted_by_scroll_offset :
  let t := run Samples.scene Samples.hoverAt50 in
  (scrollOffset (run Samples.scene [Tick 1000]) == 50)%Q
  /\ hoveredSprite t = None /\ isScrolling t = true /\ frameCallbacks t = []
  /\ match sprites t !! 0%nat, originalSpriteData t !! 0%nat with
     | Some sprite, Some original =>
         (orig_x original == 0)%Q
         /\ (x sprite == orig_x original - 50)%Q
         /\ ~ (x sprite == orig_x original)%Q
         /\ (y sprite == orig_y original)%Q
         /\ (scale sprite == orig_scale original)%Q
         /\ zIndex sprite = orig_zIndex original
     | _, _ => False
     end.
Proof.
  vm_compute. repeat split; try reflexivity. discriminate.
Qed.

End TickerSamples.

(** ** Hover zoom *)

Section HoverFacts.

Import PixiTicker.

Lemma ease_one (p : Q) : (p == 1)%Q -> (ease p == 1)%Q.
Proof.
  intros Hp. unfold ease.
  assert (E : Qltb p (1 # 2) = false) by (apply Qltb_ge; lra).
  rewrite E. assert (H0 : (-2 * p + 2 == 0)%Q) by lra.
  rewrite H0. reflexivity.
Qed.

(** Once the duration has elapsed the progress is 1 and the closure is not
    queued again. *)
Lemma progress_done (start duration now : Q) :
  (0 < duration)%Q -> (start + duration <= now)%Q ->
  (Qmin ((now - start) / duration) 1 == 1)%Q /\
  Qltb (Qmin ((now - start) / duration) 1) 1 = false.
Proof.
  intros Hd Hnow.
  assert (H1 : (1 <= (now - start) / duration)%Q) by (apply Qle_shift_div_l; lra).
  assert (Hmin : (Qmin ((now - start) / duration) 1 == 1)%Q) by (by apply Q.min_r).
  split; [exact Hmin|]. apply Qltb_ge. rewrite Hmin. apply Qle_refl.
Qed.

(** The last frame of an animation puts the sprite on its target. *)
Lemma animationFrame_done (now : Q) (a : Animation) (t : Ticker) (sprite : Sprite)
    (to_x to_y to_scale : Q) :
  (0 < props_duration a)%Q -> (anim_start a + props_duration a <= now)%Q ->
  props_x a = Some to_x -> props_y a = Some to_y -> props_scale a = Some to_scale ->
  sprites t !! anim_sprite a = Some sprite ->
  exists sprite',
    animationFrame now a t = set_sprites (<[anim_sprite a := sprite']> (sprites t)) t
    /\ (x sprite' == to_x)%Q /\ (y sprite' == to_y)%Q /\ (scale sprite' == to_scale)%Q
    /\ zIndex sprite' = zIndex sprite /\ texture sprite' = texture sprite
    /\ filtered sprite' = filtered sprite.
Proof.
  intros Hd Hnow Hx Hy Hs Hsprite.
  destruct (progress_done (anim_start a) (props_duration a) now Hd Hnow) as [Hp Hlt].
  pose proof (ease_one _ Hp) as He.
  unfold animationFrame. cbn zeta. rewrite Hlt, Hx, Hy, Hs. cbn [fmap option_fmap option_map].
  unfold update_sprite.
  eexists. split.
  - f_equal. apply list_eq. intros j.
    destruct (decide (anim_sprite a = j)) as [<-|Hne].
    + rewrite list_lookup_alter_eq, Hsprite, list_lookup_insert_eq
        by (by eapply lookup_lt_Some). reflexivity.
    + by rewrite list_lookup_alter_ne, list_lookup_insert_ne.
  - cbn [set_xy_scale x y scale zIndex texture filtered default].
    unfold id. rewrite He. repeat split; try reflexivity; ring.
Qed.

Local Ltac ticker_simpl :=
  cbn [app container atlas sprites config isScrolling scrollOffset hoveredSprite
       lastTime frameCount fpsTimer currentFps overlay originalSpriteData
       frameCallbacks timeouts set_sprites set_isScrolling set_hoveredSprite
       set_overlay set_frameCallbacks set_timeouts update_sprite
       anim_sprite anim_start startScale startX startY props_scale props_x props_y
       props_duration foldl] in *.

Lemma runFrame_single_done (now : Q) (a : Animation) (t : Ticker) (sprite : Sprite)
    (to_x to_y to_scale : Q) :
  frameCallbacks t = [a] ->
  (0 < props_duration a)%Q -> (anim_start a + props_duration a <= now)%Q ->
  props_x a = Some to_x -> props_y a = Some to_y -> props_scale a = Some to_scale ->
  sprites t !! anim_sprite a = Some sprite ->
  exists sprite',
    runFrame now t
    = set_sprites (<[anim_sprite a := sprite']> (sprites t)) (set_frameCallbacks [] t)
    /\ (x sprite' == to_x)%Q /\ (y sprite' == to_y)%Q /\ (scale sprite' == to_scale)%Q
    /\ zIndex sprite' = zIndex sprite.
Proof.
  intros Hq Hd Hnow Hx Hy Hs Hsprite. unfold runFrame. rewrite Hq. cbn [foldl].
  destruct (animationFrame_done now a (set_frameCallbacks [] t) sprite to_x to_y to_scale
              Hd Hnow Hx Hy Hs Hsprite) as (sprite' & Heq & H1 & H2 & H3 & H4 & _).
  exists sprite'. rewrite Heq. auto.
Qed.

Lemma handleHoverStart_state (now : Q) (i : nat) (t : Ticker) (sprite : Sprite)
    (screen : Screen) :
  app t = Some screen -> sprites t !! i = Some sprite -> hoveredSprite t <> Some i ->
  let targetWidth := (screen_width screen * (6 # 10))%Q in
  let targetScale := (targetWidth / texture_width sprite)%Q in
  handleHoverStart now i t
  = set_frameCallbacks
      (frameCallbacks t ++
         [ {| anim_sprite := i; anim_start := now;
              startScale := scale sprite; startX := x sprite; startY := y sprite;
              props_scale := Some targetScale;
              props_x := Some ((screen_width screen - targetWidth) / 2)%Q;
              props_y := Some ((screen_height screen - texture_height sprite * targetScale) / 2)%Q;
              props_duration := 300 |} ])
      (set_hoveredSprite (Some i)
         (update_sprite i (set_zIndex 2000)
            (set_overlay ((fun _ => (true, 7 # 10)) <$> overlay t)
               (set_isScrolling false t)))).
Proof.
  intros Happ Hsprite Hhover. unfold handleHoverStart. rewrite Hsprite, Happ.
  rewrite bool_decide_false by exact Hhover.
  cbn zeta. unfold animateSprite. ticker_simpl.
  rewrite list_lookup_alter_eq, Hsprite. reflexivity.
Qed.

Lemma handleHoverEnd_state (now : Q) (i : nat) (t : Ticker) (sprite : Sprite)
    (original : SpriteData) :
  hoveredSprite t = Some i -> sprites t !! i = Some sprite ->
  originalSpriteData t !! i = Some original ->
  handleHoverEnd now t
  = set_timeouts (timeouts t ++ [(now + 300)%Q])
      (set_overlay ((fun o => (false, snd o)) <$> overlay t)
         (set_hoveredSprite None
            (update_sprite i (set_zIndex 0)
               (set_frameCallbacks
                  (frameCallbacks t ++
                     [ {| anim_sprite := i; anim_start := now;
                          startScale := scale sprite; startX := x sprite;
                          startY := y sprite;
                          props_scale := Some (orig_scale original);
                          props_x := Some (orig_x original - scrollOffset t)%Q;
                          props_y := Some (orig_y original);
                          props_duration := 300 |} ]) t)))).
Proof.
  intros Hhover Hsprite Horig. unfold handleHoverEnd. rewrite Hhover, Horig.
  unfold animateSprite. rewrite Hsprite. reflexivity.
Qed.

(** Hover, let the zoom finish, release, let the restore finish: the sprite
    rests at its saved y and scale, and at its saved x minus the scroll
    offset. *)
Lemma hover_round_trip (t : Ticker) (i : nat) (sprite : Sprite) (original : SpriteData)
    (screen : Screen) (n0 n1 n2 n3 : Q) :
  app t = Some screen -> sprites t !! i = Some sprite ->
  originalSpriteData t !! i = Some original ->
  hoveredSprite t = None -> frameCallbacks t = [] ->
  (n0 + 300 <= n1)%Q -> (n2 + 300 <= n3)%Q ->
  let t' := run t [HoverStart n0 i; Frame n1; HoverEnd n2; Frame n3] in
  exists sprite',
    sprites t' !! i = Some sprite'
    /\ (x sprite' == orig_x original - scrollOffset t)%Q
    /\ (y sprite' == orig_y original)%Q
    /\ (scale sprite' == orig_scale original)%Q
    /\ zIndex sprite' = 0
    /\ hoveredSprite t' = None /\ frameCallbacks t' = []
    /\ scrollOffset t' = scrollOffset t.
Proof.
  intros Happ Hsprite Horig Hhover Hqueue Hn1 Hn3 t'. subst t'.
  unfold run. cbn [foldl step].
  assert (Hi : (i < length (sprites t))%nat) by (by eapply lookup_lt_Some).
  (* hover start *)
  rewrite (handleHoverStart_state n0 i t sprite screen Happ Hsprite)
    by (rewrite Hhover; discriminate).
  rewrite Hqueue. cbn [app].
  (* the zoom completes *)
  match goal with |- context [runFrame n1 ?s] =>
    destruct (runFrame_single_done n1 _ s (set_zIndex 2000 sprite) _ _ _
                eq_refl eq_refl ltac:(cbn; lra) eq_refl eq_refl eq_refl)
      as (sprite1 & -> & _ & _ & _ & _);
      [ticker_simpl; by rewrite list_lookup_alter_eq, Hsprite|]
  end.
  ticker_simpl.
  (* hover end *)
  match goal with |- context [handleHoverEnd n2 ?s] =>
    rewrite (handleHoverEnd_state n2 i s sprite1 original eq_refl);
      [|ticker_simpl; apply list_lookup_insert_eq; by rewrite length_alter
       |exact Horig]
  end.
  ticker_simpl. cbn [app].
  (* the restore completes *)
  match goal with |- context [runFrame n3 ?s] =>
    destruct (runFrame_single_done n3 _ s (set_zIndex 0 sprite1) _ _ _
                eq_refl eq_refl ltac:(cbn; lra) eq_refl eq_refl eq_refl)
      as (sprite2 & -> & Hx & Hy & Hs & Hz);
      [ticker_simpl; rewrite list_lookup_alter_eq, list_lookup_insert_eq
         by (by rewrite length_alter); reflexivity|]
  end.
  ticker_simpl. exists sprite2.
  split; [apply list_lookup_insert_eq; by rewrite length_alter, length_insert, length_alter|].
  repeat split; assumption || reflexivity.
Qed.

End HoverFacts.

(** ** The loop width of a fresh scene *)

Section SceneFacts.

Import PixiTicker SceneSpec.

Variable canvas : GlyphMap.Canvas.
Variable Math_random : nat -> Q.

Lemma foldl_addSprite (atlasData : Photos.AtlasData) (tileSize : Z) (offsetY : Q)
    (mappings : list GlyphMap.TileMapping) :
  forall acc : list Sprite * gmap nat SpriteData,
  (foldl (addSprite atlasData tileSize offsetY) acc mappings).1
  = acc.1 ++ (spriteOf atlasData tileSize offsetY <$> mappings).
Proof.
  induction mappings as [|m mappings IH]; intros acc; cbn [foldl fmap list_fmap].
  - by rewrite app_nil_r.
  - rewrite IH. cbn [addSprite fst]. by rewrite <- app_assoc.
Qed.

Lemma foldl_addDuplicate (width : Q) (originals : list Sprite) :
  forall acc : list Sprite * gmap nat SpriteData,
  (foldl (addDuplicate width) acc originals).1
  = acc.1 ++ (duplicateOf width <$> originals).
Proof.
  induction originals as [|s originals IH]; intros acc; cbn [foldl fmap list_fmap].
  - by rewrite app_nil_r.
  - rewrite IH. cbn [addDuplicate fst]. by rewrite <- app_assoc.
Qed.

(** The sprite list of a scene built on an empty ticker: the sprites of the
    mappings, then their duplicates. *)
Lemma createScene_sprites (t t' : Ticker) (screen : Screen) (atlasData : Photos.AtlasData)
    (mask : GlyphMap.GlyphMask) :
  app t = Some screen -> atlas t = Some atlasData -> sprites t = [] ->
  GlyphMap.generateTextMask canvas (text (config t)) (glyphScale (config t)) FONT_FAMILY
  = Ok mask ->
  createScene canvas Math_random t = Ok t' ->
  let tileSize := GlyphMap.calculateTileSize (screen_width screen) (tileBaseVw (config t)) in
  let size := GlyphMap.calculateContainerSize mask (inject_Z tileSize) in
  let originals :=
    spriteOf atlasData tileSize ((screen_height screen - size.2) / 2)%Q
      <$> GlyphMap.mapTilesToGlyph Math_random mask atlasData (inject_Z tileSize) in
  sprites t' = originals ++ (duplicateOf size.1 <$> originals).
Proof.
  intros Happ Hatlas Hempty Hmask. unfold createScene.
  rewrite Happ, Hatlas, Hmask. cbn zeta. intros [= <-].
  cbn [set_overlay set_scene sprites]. unfold duplicateContainerForLoop.
  rewrite foldl_addDuplicate, !foldl_addSprite, Hempty. reflexivity.
Qed.

(** With the sprites followed by their duplicates, the loop width is the
    distance from the strip to its duplicate: the content width plus 100. *)
Lemma getLoopWidth_duplicated (t : Ticker) (width : Q) (originals : list Sprite) :
  sprites t = originals ++ (duplicateOf width <$> originals) ->
  originals <> [] -> (0 <= width)%Q ->
  (getLoopWidth t == width + 100)%Q.
Proof.
  intros Hs Hne Hw. unfold getLoopWidth. rewrite Hs.
  destruct originals as [|first rest]; [congruence|].
  rewrite length_app, length_fmap.
  replace ((length (first :: rest) + length (first :: rest)) / 2)%nat
    with (length (first :: rest)).
  2:{ replace (length (first :: rest) + length (first :: rest))%nat
        with (length (first :: rest) * 2)%nat by lia.
      by rewrite Nat.div_mul. }
  rewrite lookup_app_r by lia. rewrite Nat.sub_diag. cbn [fmap list_fmap lookup list_lookup app].
  cbn [duplicateOf x].
  change (((first :: rest) ++ duplicateOf width first :: (duplicateOf width <$> rest)) !! 0%nat)
    with (Some first).
  rewrite Qabs_pos by lra. ring.
Qed.

End SceneFacts.

(** * Further properties *)

#[local] Set Default Proof Using "Type".

(** ** Photo processing *)

Section ProcessFacts.

Import Photos AtlasSpec.

Variable sharp : string -> Result SharpImage.
Variable basename : string -> string.
Variable basename_ext : string -> string -> string.
Variable extname : string -> string.
Variable join : list string -> string.
Variable toLowerCase : string -> string.
Variable encode : string -> Z -> string -> Result Z.
Variable readdir : string -> Result (list string).
Variable DATA_DIR : string.

Local Abbreviation analyzeImage := (Photos.analyzeImage sharp basename).
Local Abbreviation generateVariants :=
  (Photos.generateVariants basename_ext extname join encode DATA_DIR).
Local Abbreviation processPhoto :=
  (Photos.processPhoto sharp basename basename_ext extname join encode DATA_DIR).
Local Abbreviation reindex_loop :=
  (Photos.reindex_loop sharp basename basename_ext extname join toLowerCase encode DATA_DIR).
Local Abbreviation reindexPhotos :=
  (Photos.reindexPhotos sharp basename basename_ext extname join toLowerCase encode
     readdir DATA_DIR).

Lemma existsb_filename_false (s : Store) (name : string) :
  name ∉ indexedNames s ->
  existsb (fun row => String.eqb (filename (row_meta row)) name) (photos s) = false.
Proof.
  unfold indexedNames. induction (photos s) as [|row rows IH]; intros Hn; [reflexivity|].
  cbn. rewrite fmap_cons, not_elem_of_cons in Hn. destruct Hn as [Hne Hn].
  rewrite (IH Hn), orb_false_r. apply String.eqb_neq. congruence.
Qed.

Lemma existsb_filename_true (s : Store) (name : string) :
  name ∈ indexedNames s ->
  existsb (fun row => String.eqb (filename (row_meta row)) name) (photos s) = true.
Proof.
  unfold indexedNames. induction (photos s) as [|row rows IH]; intros Hn.
  - by apply elem_of_nil in Hn.
  - cbn. rewrite fmap_cons, elem_of_cons in Hn. destruct Hn as [->|Hn].
    + by rewrite String.eqb_refl.
    + by rewrite (IH Hn), orb_true_r.
Qed.

Lemma find_filename_Some (s : Store) (name : string) :
  name ∈ indexedNames s ->
  is_Some (find (fun row => String.eqb (filename (row_meta row)) name) (photos s)).
Proof.
  unfold indexedNames. induction (photos s) as [|row rows IH]; intros Hn.
  - by apply elem_of_nil in Hn.
  - cbn. destruct (String.eqb_spec (filename (row_meta row)) name) as [E|E]; [by eexists|].
    rewrite fmap_cons, elem_of_cons in Hn. destruct Hn as [->|Hn]; [congruence|auto].
Qed.

Lemma find_filename_None (s : Store) (name : string) :
  name ∉ indexedNames s ->
  find (fun row => String.eqb (filename (row_meta row)) name) (photos s) = None.
Proof.
  unfold indexedNames. induction (photos s) as [|row rows IH]; intros Hn; [reflexivity|].
  cbn. rewrite fmap_cons, not_elem_of_cons in Hn. destruct Hn as [Hne Hn].
  destruct (String.eqb_spec (filename (row_meta row)) name) as [E|E]; [congruence|auto].
Qed.

(** The store after the nine files of a photo were written and its nine
    rows inserted. *)
Lemma generateVariants_Ok (originalPath : string) (photoId : Z) (len : Z -> string -> Z)
    (s : Store) :
  (forall size format, encode originalPath size format = Ok (len size format)) ->
  let rows := variantRowsOf join DATA_DIR
                (basename_ext originalPath (extname originalPath)) photoId len in
  exists s',
    generateVariants originalPath photoId s = (Ok tt, s')
    /\ photos s' = photos s /\ photos_seq s' = photos_seq s
    /\ photo_variants s' = photo_variants s ++ rows
    /\ (forall p, p ∈ files s' <-> p ∈ files s \/ p ∈ var_path <$> rows)
    /\ atlas s' = atlas s /\ atlas_json s' = atlas_json s.
Proof.
  clear sharp basename toLowerCase readdir.
  intros Henc rows. unfold Photos.generateVariants.
  set (stem := basename_ext originalPath (extname originalPath)) in *.
  match goal with |- context [for_of _ ?f] => set (body := f) end.
  assert (Hstep : forall size s0, exists s1,
    body size s0 = (Ok tt, s1)
    /\ photos s1 = photos s0 /\ photos_seq s1 = photos_seq s0
    /\ photo_variants s1 = photo_variants s0 ++
         ((fun f => {| var_photo_id := photoId; var_size := size; var_format := f.1;
                       var_path := join [VARIANTS_DIR join DATA_DIR; variantName stem size f.2];
                       var_file_size := len size f.1 |}) <$> formats)
    /\ (forall p, p ∈ files s1 <->
          p ∈ files s0 \/
          p ∈ (fun f => join [VARIANTS_DIR join DATA_DIR; variantName stem size f.2])
              <$> formats)
    /\ atlas s1 = atlas s0 /\ atlas_json s1 = atlas_json s0).
  { intros size s0. subst body. cbn beta.
    unfold bind, lift, writeFile, insertVariant. rewrite !Henc.
    eexists. split; [reflexivity|].
    cbn [photos photos_seq photo_variants atlas atlas_json files set_files].
    split; [reflexivity|]. split; [reflexivity|].
    split; [by rewrite <- !app_assoc|].
    split; [|split; reflexivity].
    intros p. unfold formats. cbn.
    rewrite !elem_of_union, !elem_of_singleton, !elem_of_cons, elem_of_nil. tauto. }
  clearbody body. unfold VARIANT_SIZES. cbn [for_of].
  destruct (Hstep 256 s) as (s1 & E1 & P1 & Q1 & V1 & F1 & A1 & J1).
  destruct (Hstep 512 s1) as (s2 & E2 & P2 & Q2 & V2 & F2 & A2 & J2).
  destruct (Hstep 1024 s2) as (s3 & E3 & P3 & Q3 & V3 & F3 & A3 & J3).
  exists s3. unfold bind at 1. rewrite E1. unfold bind at 1. rewrite E2.
  unfold bind at 1. rewrite E3. split; [reflexivity|].
  split; [congruence|]. split; [congruence|].
  split.
  { rewrite V3, V2, V1. subst rows. unfold variantRowsOf, VARIANT_SIZES.
    cbn [mbind list_bind]. by rewrite app_nil_r, <- !app_assoc. }
  split; [|split; congruence].
  intros p. rewrite F3, F2, F1. subst rows. unfold variantRowsOf, VARIANT_SIZES.
  cbn [mbind list_bind]. rewrite app_nil_r, !fmap_app, !elem_of_app, <- !list_fmap_compose.
  tauto.
Qed.

(** The nine rows of a photo differ in size or format. *)
Lemma variantRowsOf_keys (stem : string) (photoId : Z) (len : Z -> string -> Z) :
  NoDup (variantKey <$> variantRowsOf join DATA_DIR stem photoId len) /\
  Forall (fun v => var_photo_id v = photoId) (variantRowsOf join DATA_DIR stem photoId len).
Proof.
  clear toLowerCase sharp readdir extname encode basename_ext basename.
  unfold variantRowsOf, VARIANT_SIZES, formats, variantKey. cbn. split.
  - apply NoDup_ListNoDup. repeat constructor; cbn; intuition congruence.
  - repeat constructor.
Qed.

(** X1. A photo that decodes, whose file name is not yet in table photos and
    whose nine encodings succeed is stored under the next id, with nine
    variant rows, one per size and format, and their nine files on disk;
    nothing else changes.  When no variant row carries the next id yet, the
    UNIQUE constraint of table photo_variants on (photo id, size, format)
    still holds afterwards. *)
Theorem processPhoto_stores_photo_and_nine_variants (originalPath : string)
    (metadata : PhotoMetadata) (len : Z -> string -> Z) (s : Store) :
  analyzeImage originalPath = Ok metadata ->
  filename metadata ∉ indexedNames s ->
  (forall size format, encode originalPath size format = Ok (len size format)) ->
  NoDup (variantKey <$> photo_variants s) ->
  (forall v, v ∈ photo_variants s -> var_photo_id v <> photos_seq s + 1) ->
  let id := photos_seq s + 1 in
  let rows := variantRowsOf join DATA_DIR
                (basename_ext originalPath (extname originalPath)) id len in
  exists s',
    processPhoto originalPath s = (Ok id, s')
    /\ photos s' = photos s ++ [ {| row_id := id; row_original_path := originalPath;
                                    row_meta := metadata |} ]
    /\ photos_seq s' = id
    /\ photo_variants s' = photo_variants s ++ rows
    /\ length rows = 9%nat
    /\ NoDup (variantKey <$> photo_variants s')
    /\ (forall p, p ∈ files s' <-> p ∈ files s \/ p ∈ var_path <$> rows)
    /\ atlas s' = atlas s /\ atlas_json s' = atlas_json s.
Proof.
  clear toLowerCase readdir.
  intros Hmeta Hnew Henc Hunique Hfresh id rows.
  unfold Photos.processPhoto. unfold bind at 1, lift at 1. rewrite Hmeta.
  unfold bind at 1, insertPhoto at 1. rewrite (existsb_filename_false s _ Hnew).
  cbv beta iota. fold id. unfold bind at 1.
  match goal with |- context [Photos.generateVariants _ _ _ _ _ _ _ ?s0] =>
    destruct (generateVariants_Ok originalPath id len s0 Henc)
      as (s' & Hgen & Hp & Hq & Hv & Hf & Ha & Hj)
  end.
  exists s'. rewrite Hgen. cbn [ret].
  split; [reflexivity|]. split; [exact Hp|]. split; [exact Hq|]. split; [exact Hv|].
  split; [reflexivity|].
  split.
  { rewrite Hv. cbn [photo_variants]. fold rows. rewrite fmap_app.
    destruct (variantRowsOf_keys
                (basename_ext originalPath (extname originalPath)) id len)
      as [Hrows Hid].
    apply NoDup_app. split; [exact Hunique|]. split; [|exact Hrows].
    intros key Hold Hnew'.
    apply list_elem_of_fmap in Hold as (v & -> & Hv1).
    apply list_elem_of_fmap in Hnew' as (v' & Hkey & Hv2).
    rewrite Forall_forall in Hid. specialize (Hid v' Hv2).
    apply (Hfresh v Hv1). unfold variantKey in Hkey.
    injection Hkey as Hkey _ _. rewrite Hkey. exact Hid. }
  split; [exact Hf|]. split; [exact Ha|exact Hj].
Qed.

(** X2. A photo whose file name is already in table photos is rejected by
    the UNIQUE constraint, and the store is left as it was: no row, no
    variant, no file. *)
Theorem processPhoto_rejects_known_filename (originalPath : string)
    (metadata : PhotoMetadata) (s : Store) :
  analyzeImage originalPath = Ok metadata ->
  filename metadata ∈ indexedNames s ->
  processPhoto originalPath s = (Err "UNIQUE constraint failed: photos.filename", s).
Proof.
  intros Hmeta Hold. unfold Photos.processPhoto, bind, lift, insertPhoto.
  by rewrite Hmeta, (existsb_filename_true s _ Hold).
Qed.

(** Whatever the outcome, variant generation leaves table photos alone. *)
Lemma generateVariants_keeps_photos (originalPath : string) (photoId : Z) (s : Store) :
  photos (generateVariants originalPath photoId s).2 = photos s /\
  photos_seq (generateVariants originalPath photoId s).2 = photos_seq s.
Proof.
  unfold Photos.generateVariants.
  match goal with |- context [for_of _ ?f] => set (body := f) end.
  assert (Hstep : forall size s0,
            photos (body size s0).2 = photos s0 /\
            photos_seq (body size s0).2 = photos_seq s0).
  { intros size s0. subst body. cbn beta. unfold bind, lift, writeFile, insertVariant.
    destruct (encode originalPath size "avif"); [|by cbn].
    destruct (encode originalPath size "webp"); [|by cbn].
    destruct (encode originalPath size "jpeg"); by cbn. }
  clearbody body. unfold VARIANT_SIZES. cbn [for_of]. unfold bind, ret.
  pose proof (Hstep 256 s) as [P1 Q1].
  destruct (body 256 s) as [[u1|e1] s1]; cbn [snd] in *; [|auto].
  pose proof (Hstep 512 s1) as [P2 Q2].
  destruct (body 512 s1) as [[u2|e2] s2]; cbn [snd] in *; [|split; congruence].
  pose proof (Hstep 1024 s2) as [P3 Q3].
  destruct (body 1024 s2) as [[u3|e3] s3]; cbn [snd] in *; split; congruence.
Qed.

(** A photo that [processPhoto] accepts is appended to table photos under
    the base name of its path. *)
Lemma processPhoto_Ok_photos (originalPath : string) (s s' : Store) (id : Z) :
  processPhoto originalPath s = (Ok id, s') ->
  exists row,
    photos s' = photos s ++ [row] /\ filename (row_meta row) = basename originalPath /\
    basename originalPath ∉ indexedNames s.
Proof.
  unfold Photos.processPhoto, bind at 1, lift at 1.
  destruct (analyzeImage originalPath) as [metadata|e] eqn:Hmeta; [|discriminate].
  assert (Hname : filename metadata = basename originalPath).
  { unfold Photos.analyzeImage in Hmeta. repeat case_match; try discriminate.
    by injection Hmeta as <-. }
  unfold bind at 1, insertPhoto at 1.
  destruct (existsb _ (photos s)) eqn:Hex; [discriminate|].
  unfold bind at 1.
  match goal with |- context [Photos.generateVariants ?f1 ?f2 ?f3 ?f4 ?f5 ?p ?i ?st] =>
    pose proof (generateVariants_keeps_photos p i st) as [Hp _];
    destruct (Photos.generateVariants f1 f2 f3 f4 f5 p i st) as [[u|err] s1]
  end; [|discriminate].
  cbn [ret]. intros [= _ <-]. cbn [snd photos] in Hp.
  eexists. split; [exact Hp|]. split; [exact Hname|].
  rewrite <- Hname. intros Hin. apply existsb_filename_true in Hin. congruence.
Qed.

(** X3. When the very first encoding of a photo fails, [processPhoto] throws
    the encoder's error after the photo row was inserted: the row stays,
    without any variant row or file.  A later reindex finds the file name in
    the table and skips the file, so its variants are not generated then
    either. *)
Theorem processPhoto_encode_failure_keeps_row (file : string) (metadata : PhotoMetadata)
    (e : string) (s : Store) :
  let originalPath := join [ORIGINAL_DIR join DATA_DIR; file] in
  analyzeImage originalPath = Ok metadata ->
  filename metadata = file ->
  file ∉ indexedNames s ->
  encode originalPath 256 "avif" = Err e ->
  exists s',
    processPhoto originalPath s = (Err e, s')
    /\ indexedNames s' = indexedNames s ++ [file]
    /\ photo_variants s' = photo_variants s /\ files s' = files s
    /\ reindex_loop [file] 0 s' = (Ok 0, s').
Proof.
  intros originalPath Hmeta Hname Hnew Henc.
  unfold Photos.processPhoto, Photos.generateVariants, VARIANT_SIZES, for_of.
  unfold bind, lift, ret, insertPhoto.
  rewrite Hmeta, Hname, (existsb_filename_false s _ Hnew), Henc.
  eexists. split; [reflexivity|].
  unfold indexedNames. cbn [photos photo_variants files].
  split; [by rewrite fmap_app; cbn; rewrite Hname|].
  split; [reflexivity|]. split; [reflexivity|].
  cbn [Photos.reindex_loop]. destruct (negb _); [reflexivity|].
  unfold bind at 1, get_store at 1. cbn [photos].
  match goal with |- context [find ?f ?l] => destruct (find f l) eqn:Hfind end;
    [reflexivity|].
  exfalso. eapply find_none with (x := {| row_id := photos_seq s + 1;
                                          row_original_path := originalPath;
                                          row_meta := metadata |}) in Hfind.
  - cbn in Hfind. rewrite Hname, String.eqb_refl in Hfind. discriminate.
  - apply in_or_app. right. by left.
Qed.

(** A directory entry that is no image name or is already indexed is
    passed over. *)
Lemma reindex_loop_skips (files : list string) :
  forall (count : Z) (s : Store),
  (forall file, file ∈ files ->
                isImageName extname toLowerCase file = false \/ file ∈ indexedNames s) ->
  reindex_loop files count s = (Ok count, s).
Proof.
  induction files as [|file rest IH]; intros count s Hall; [reflexivity|].
  cbn [Photos.reindex_loop].
  assert (Hrest : forall f, f ∈ rest ->
            isImageName extname toLowerCase f = false \/ f ∈ indexedNames s)
    by (intros f Hf; apply Hall; by apply list_elem_of_further).
  destruct (Hall file ltac:(apply list_elem_of_here)) as [Hext|Hknown].
  - unfold isImageName in Hext. rewrite Hext. cbn [negb]. by apply IH.
  - destruct (negb _); [by apply IH|].
    unfold bind at 1, get_store at 1.
    destruct (find_filename_Some s file Hknown) as [row ->]. by apply IH.
Qed.

(** X4. A reindex over a directory in which every entry either has no image
    extension (.jpg, .jpeg, .png, .webp, in any letter case) or is already in
    table photos indexes nothing: it returns 0 and leaves the store as it
    was. *)
Theorem reindexPhotos_nothing_new (dirFiles : list string) (s : Store) :
  readdir (ORIGINAL_DIR join DATA_DIR) = Ok dirFiles ->
  (forall file, file ∈ dirFiles ->
                isImageName extname toLowerCase file = false \/ file ∈ indexedNames s) ->
  reindexPhotos s = (Ok 0, s).
Proof.
  intros Hdir Hall. unfold Photos.reindexPhotos, bind at 1, lift at 1.
  rewrite Hdir. by apply reindex_loop_skips.
Qed.

(** After a reindex loop that succeeded, every image name of the directory
    is in table photos, and so is every name that was there before. *)
Lemma reindex_loop_Ok_indexed (dirFiles : list string) :
  (forall file, file ∈ dirFiles ->
                basename (join [ORIGINAL_DIR join DATA_DIR; file]) = file) ->
  forall (count count' : Z) (s s' : Store),
  reindex_loop dirFiles count s = (Ok count', s') ->
  (forall file, file ∈ indexedNames s -> file ∈ indexedNames s') /\
  (forall file, file ∈ dirFiles -> isImageName extname toLowerCase file = true ->
                file ∈ indexedNames s').
Proof.
  induction dirFiles as [|file rest IH]; intros Hbase count count' s s' Hrun.
  { cbn in Hrun. injection Hrun as _ <-. split; [auto|].
    intros f Hf. by apply elem_of_nil in Hf. }
  assert (Hfile : basename (join [ORIGINAL_DIR join DATA_DIR; file]) = file)
    by apply Hbase, list_elem_of_here.
  specialize (IH (fun f Hf => Hbase f (list_elem_of_further _ _ _ Hf))).
  cbn [Photos.reindex_loop] in Hrun. fold (isImageName extname toLowerCase file) in Hrun.
  destruct (isImageName extname toLowerCase file) eqn:Hext; cbn [negb] in Hrun.
  2:{ destruct (IH _ _ _ _ Hrun) as [Hmono Hall]. split; [exact Hmono|].
      intros f Hf Himg. apply elem_of_cons in Hf as [->|Hf]; [congruence|auto]. }
  unfold bind at 1, get_store at 1 in Hrun.
  destruct (find _ (photos s)) as [row|] eqn:Hfind.
  - destruct (IH _ _ _ _ Hrun) as [Hmono Hall]. split; [exact Hmono|].
    intros f Hf Himg. apply elem_of_cons in Hf as [->|Hf]; [|auto].
    apply Hmono. apply find_some in Hfind as [Hin Heq].
    apply String.eqb_eq in Heq. unfold indexedNames.
    apply list_elem_of_fmap. exists row. split; [congruence|]. by apply list_elem_of_In.
  - unfold bind at 1 in Hrun.
    destruct (processPhoto (join [ORIGINAL_DIR join DATA_DIR; file]) s)
      as [[id|e] s1] eqn:Hproc; [|discriminate].
    apply processPhoto_Ok_photos in Hproc as (row & Hphotos & Hname & _).
    rewrite Hfile in Hname.
    destruct (IH _ _ _ _ Hrun) as [Hmono Hall].
    assert (Hstep : forall f, f ∈ indexedNames s \/ f = file -> f ∈ indexedNames s1).
    { intros f Hf. unfold indexedNames. rewrite Hphotos, fmap_app, elem_of_app. cbn.
      rewrite list_elem_of_singleton. destruct Hf as [Hf| ->]; [by left|right; congruence]. }
    split; [intros f Hf; apply Hmono, Hstep; by left|].
    intros f Hf Himg. apply elem_of_cons in Hf as [->|Hf]; [|auto].
    apply Hmono, Hstep. by right.
Qed.

(** X5. Reindexing is idempotent: right after a reindex that succeeded, a
    second reindex of the same directory listing returns 0 and changes
    nothing.  (The directory entries are plain names: the base name of an
    entry joined to the directory is the entry.) *)
Theorem reindexPhotos_idempotent (dirFiles : list string) (count : Z) (s s' : Store) :
  (forall file, file ∈ dirFiles ->
                basename (join [ORIGINAL_DIR join DATA_DIR; file]) = file) ->
  readdir (ORIGINAL_DIR join DATA_DIR) = Ok dirFiles ->
  reindexPhotos s = (Ok count, s') ->
  reindexPhotos s' = (Ok 0, s').
Proof.
  intros Hbase Hdir Hrun.
  unfold Photos.reindexPhotos in *.
  unfold bind at 1, lift at 1 in Hrun. unfold bind at 1, lift at 1.
  rewrite Hdir in *.
  destruct (reindex_loop_Ok_indexed dirFiles Hbase _ _ _ _ Hrun) as [_ Hall].
  apply reindex_loop_skips.
  intros file Hfile. destruct (isImageName extname toLowerCase file) eqn:Hext; auto.
Qed.

End ProcessFacts.

(** ** Upload and atlas endpoints *)

Section EndpointFacts.

Import Photos AtlasSpec.

Variable sharp : string -> Result SharpImage.
Variable basename : string -> string.
Variable basename_ext : string -> string -> string.
Variable extname : string -> string.
Variable join : list string -> string.
Variable encode : string -> Z -> string -> Result Z.
Variable resizeTile : string -> Result unit.
Variable DATA_DIR : string.

Local Abbreviation handleUpload :=
  (Photos.handleUpload sharp basename basename_ext extname join encode DATA_DIR).
Local Abbreviation buildAtlas := (Photos.buildAtlas extname join resizeTile DATA_DIR).
Local Abbreviation handleRebuildAtlas :=
  (Photos.handleRebuildAtlas extname join resizeTile DATA_DIR).
Local Abbreviation variantPath := (AtlasSpec.variantPath extname join DATA_DIR).

(** X6. An upload request without a file array is answered 400 and changes
    nothing.  A request with files is always answered 200, whatever fails
    inside, with one result per file, in the order of the files and under
    the file's original name; a result is either a success with a photo id
    or a failure with an error message. *)
Theorem handleUpload_answers_every_file (req_files : option (list UploadedFile))
    (s : Store) :
  match req_files with
  | None =>
      handleUpload None s = ({| status := 400; body := ErrorBody "No files uploaded" |}, s)
  | Some uploaded =>
      exists message results s',
        handleUpload (Some uploaded) s
        = ({| status := 200; body := UploadBody true message results |}, s')
        /\ Forall2 (fun file result =>
                      res_filename result = originalname file /\
                      (res_success result = true <-> is_Some (res_photoId result)) /\
                      (res_success result = false <-> is_Some (res_error result)))
                   uploaded results
  end.
Proof.
  destruct req_files as [uploaded|]; [|reflexivity].
  unfold Photos.handleUpload.
  destruct (upload_loop_total sharp basename basename_ext extname join encode DATA_DIR
              uploaded [] s) as (rs & s' & Heq & Hall).
  rewrite Heq. cbn [app]. do 3 eexists. split; [reflexivity|exact Hall].
Qed.

(** X7. On an empty table photos the rebuild endpoint answers 500 with the
    message "No photos available to build atlas" and leaves the store,
    hence the atlas of an earlier build, as it was. *)
Theorem handleRebuildAtlas_without_photos (s : Store) :
  photos s = [] ->
  handleRebuildAtlas s
  = ({| status := 500; body := ErrorBody "No photos available to build atlas" |}, s)
  /\ getAtlas (handleRebuildAtlas s).2 = getAtlas s.
Proof.
  intros Hempty.
  assert (H : handleRebuildAtlas s
              = ({| status := 500;
                    body := ErrorBody "No photos available to build atlas" |}, s)).
  { unfold Photos.handleRebuildAtlas, Photos.buildAtlas, bind at 1, get_store at 1.
    rewrite Hempty. reflexivity. }
  split; [exact H|]. by rewrite H.
Qed.

Lemma cell_inj (tilesPerRow i j : Z) :
  1 <= tilesPerRow ->
  (i mod tilesPerRow * ATLAS_TILE_SIZE, i / tilesPerRow * ATLAS_TILE_SIZE)
  = (j mod tilesPerRow * ATLAS_TILE_SIZE, j / tilesPerRow * ATLAS_TILE_SIZE) ->
  i = j.
Proof.
  unfold ATLAS_TILE_SIZE. intros Hpos [= Hm Hd].
  rewrite (Z.div_mod i tilesPerRow), (Z.div_mod j tilesPerRow) by lia. nia.
Qed.

(** X8. No two tiles of a built atlas share a grid cell: the top-left
    corners of the tile rectangles in the metadata document are pairwise
    different, for any number of photos.  With at most 1024 photos every
    tile rectangle also lies inside the atlas image. *)
Theorem buildAtlas_tiles_do_not_overlap (s : Store) :
  photos s <> [] ->
  (forall photo, photo ∈ photos s -> variantPath photo ∈ files s ->
                 resizeTile (variantPath photo) = Ok tt) ->
  exists s' doc,
    buildAtlas s = (Ok tt, s') /\ atlas_json s' = Some doc /\
    NoDup ((fun tile => (tile_x tile, tile_y tile)) <$> tiles doc) /\
    ((length (photos s) <= 1024)%nat -> Forall (insideAtlas doc) (tiles doc)).
Proof.
  intros Hne Hres.
  destruct (buildAtlas_document extname join resizeTile DATA_DIR s Hne Hres)
    as (s' & doc & Hb & Hj & Ht & _).
  exists s', doc. split; [exact Hb|]. split; [exact Hj|].
  split.
  2:{ intros Hle.
      destruct (buildAtlas_tiles_inside_upto_1024 extname join resizeTile DATA_DIR
                  s Hne Hle Hres) as (s1 & doc1 & Hb1 & Hj1 & Hin).
      rewrite Hb in Hb1. injection Hb1 as <-. rewrite Hj in Hj1. by injection Hj1 as <-. }
  cbn zeta in Ht. rewrite Ht, <- list_fmap_compose.
  set (n := Z.of_nat (length (photos s))) in *.
  set (l := filter _ _).
  assert (Hn : 1 <= n) by (subst n; destruct (photos s); [congruence|cbn; lia]).
  pose proof (ceil_sqrt_pos n Hn) as Hpos.
  assert (Hfst : NoDup (l.*1)).
  { eapply sublist_NoDup; [apply (NoDup_seqZ 0 n)|].
    etrans; [apply fmap_sublist, sublist_filter|].
    rewrite fst_zip; [reflexivity|].
    rewrite length_seqZ, sort_by_length. subst n. lia. }
  replace ((fun tile => (tile_x tile, tile_y tile)) ∘ _)
    with ((fun i => (i mod ceil_sqrt n * ATLAS_TILE_SIZE,
                     i / ceil_sqrt n * ATLAS_TILE_SIZE)) ∘ (fst : Z * PhotoRow -> Z))
    by reflexivity.
  rewrite list_fmap_compose.
  apply NoDup_fmap_2_strong; [|exact Hfst].
  intros i j _ _. by apply cell_inj.
Qed.

(** X9. After a build that succeeded the atlas endpoint answers with the
    single row of table atlas: its width and height are those of the
    metadata document, both of its files exist, and its tile count is the
    number of photos in the table, which the number of tiles in the
    document does not exceed (photos without a variant are counted in the
    row and absent from the document). *)
Theorem getAtlas_after_build (s : Store) :
  photos s <> [] ->
  (forall photo, photo ∈ photos s -> variantPath photo ∈ files s ->
                 resizeTile (variantPath photo) = Ok tt) ->
  exists s' doc row,
    buildAtlas s = (Ok tt, s') /\ atlas_json s' = Some doc /\
    getAtlas s' = AtlasFound row /\
    tile_count row = Z.of_nat (length (photos s)) /\
    Z.of_nat (length (tiles doc)) <= tile_count row /\
    row_atlas_width row = atlas_width doc /\ row_atlas_height row = atlas_height doc /\
    json_path row ∈ files s' /\ image_path row ∈ files s' /\
    photos s' = photos s.
Proof.
  clear sharp encode basename_ext basename.
  intros Hne Hres. unfold Photos.buildAtlas.
  unfold bind at 1, get_store at 1. rewrite sort_by_length.
  destruct (Z.eqb_spec (Z.of_nat (length (photos s))) 0) as [E|E].
  { destruct (photos s); [congruence|cbn in E; lia]. }
  destruct (atlas_loop_result extname join resizeTile DATA_DIR
              (ceil_sqrt (Z.of_nat (length (photos s)))) s
              (sort_by atlas_order (photos s)) 0 [] []) as [inputs Heq].
  { intros photo Hin. apply Hres. by rewrite sort_by_Permutation in Hin. }
  unfold bind at 1. rewrite Heq. unfold saveAtlas, getAtlas. cbn [fst snd].
  do 3 eexists. split; [reflexivity|].
  cbn [atlas_json atlas]. split; [reflexivity|]. split; [reflexivity|].
  cbn [tile_count row_atlas_width row_atlas_height json_path image_path
       files photos tiles atlas_width atlas_height app].
  split; [reflexivity|].
  split.
  { rewrite length_fmap. etrans; [apply Nat2Z.inj_le, length_filter|].
    rewrite length_zip, length_seqZ, sort_by_length. lia. }
  repeat split; try reflexivity; set_solver.
Qed.

End EndpointFacts.

Section ProcessSamples.

Import Photos AtlasSpec.

Local Abbreviation processPhoto encode :=
  (Photos.processPhoto Samples.sharp Samples.basename Samples.basename_ext
     Samples.extname Samples.join encode Samples.DATA_DIR).
Local Abbreviation reindexPhotos :=
  (Photos.reindexPhotos Samples.sharp Samples.basename Samples.basename_ext
     Samples.extname Samples.join Samples.toLowerCase Samples.encode
     Samples.readdirNotes Samples.DATA_DIR).
Local Abbreviation buildAtlas :=
  (Photos.buildAtlas Samples.extname Samples.join Samples.resizeTile Samples.DATA_DIR).

(** X1 on good.jpg and the empty store: id 1 and nine variant rows. *)
Lemma processPhoto_stores_photo_and_nine_variants_witness :
  exists s',
    processPhoto Samples.encode Samples.goodPath Samples.emptyStore = (Ok 1, s')
    /\ length (photo_variants s') = 9%nat.
Proof.
  destruct (processPhoto_stores_photo_and_nine_variants
              Samples.sharp Samples.basename Samples.basename_ext Samples.extname
              Samples.join Samples.encode Samples.DATA_DIR
              Samples.goodPath Samples.goodMetadata (fun _ _ => 4096) Samples.emptyStore)
    as (s' & Hrun & _ & _ & Hrows & Hlen & _).
  - reflexivity.
  - cbn. apply not_elem_of_nil.
  - intros size format. reflexivity.
  - cbn. apply NoDup_nil_2.
  - intros v Hv. cbn in Hv. by apply elem_of_nil in Hv.
  - exists s'. split; [exact Hrun|]. rewrite Hrows, length_app, Hlen. reflexivity.
Defined.

(** X2 on good.jpg, processed a second time. *)
Lemma processPhoto_rejects_known_filename_witness :
  processPhoto Samples.encode Samples.goodPath Samples.oneGood
  = (Err "UNIQUE constraint failed: photos.filename", Samples.oneGood).
Proof.
  apply (processPhoto_rejects_known_filename
           Samples.sharp Samples.basename Samples.basename_ext Samples.extname
           Samples.join Samples.encode Samples.DATA_DIR
           Samples.goodPath Samples.goodMetadata Samples.oneGood).
  - reflexivity.
  - vm_compute. apply list_elem_of_here.
Defined.

(** X3 on good.jpg with an encoder that fails. *)
Lemma processPhoto_encode_failure_keeps_row_witness :
  exists s',
    processPhoto Samples.failingEncode Samples.goodPath Samples.emptyStore
    = (Err "avif: unsupported image", s')
    /\ indexedNames s' = ["good.jpg"%string] /\ photo_variants s' = [].
Proof.
  destruct (processPhoto_encode_failure_keeps_row
              Samples.sharp Samples.basename Samples.basename_ext Samples.extname
              Samples.join Samples.toLowerCase Samples.failingEncode Samples.DATA_DIR
              "good.jpg" Samples.goodMetadata "avif: unsupported image" Samples.emptyStore)
    as (s' & Hrun & Hnames & Hvariants & _).
  - reflexivity.
  - reflexivity.
  - cbn. apply not_elem_of_nil.
  - reflexivity.
  - exists s'. split; [exact Hrun|]. split; [exact Hnames|exact Hvariants].
Defined.

Lemma sample_listing_skipped (file : string) :
  file ∈ ["notes.txt"; "good.jpg"]%string ->
  isImageName Samples.extname Samples.toLowerCase file = false \/
  file ∈ indexedNames Samples.oneGood.
Proof.
  intros Hf. apply elem_of_cons in Hf as [->|Hf]; [left; reflexivity|].
  apply list_elem_of_singleton in Hf as ->. right. vm_compute. apply list_elem_of_here.
Qed.

(** X4 on the listing [notes.txt, good.jpg] when good.jpg is indexed. *)
Lemma reindexPhotos_nothing_new_witness :
  reindexPhotos Samples.oneGood = (Ok 0, Samples.oneGood).
Proof.
  apply (reindexPhotos_nothing_new
           Samples.sharp Samples.basename Samples.basename_ext Samples.extname
           Samples.join Samples.toLowerCase Samples.encode Samples.readdirNotes
           Samples.DATA_DIR ["notes.txt"; "good.jpg"]%string Samples.oneGood).
  - reflexivity.
  - exact sample_listing_skipped.
Defined.

Lemma sample_listing_plain (file : string) :
  file ∈ ["notes.txt"; "good.jpg"]%string ->
  Samples.basename
    (Samples.join [ORIGINAL_DIR Samples.join Samples.DATA_DIR; file]) = file.
Proof.
  intros Hf. apply elem_of_cons in Hf as [->|Hf]; [reflexivity|].
  apply list_elem_of_singleton in Hf as ->. reflexivity.
Qed.

(** X5 on the same listing, from the empty store: the first reindex indexes
    good.jpg, the second nothing. *)
Lemma reindexPhotos_idempotent_witness :
  reindexPhotos (reindexPhotos Samples.emptyStore).2
  = (Ok 0, (reindexPhotos Samples.emptyStore).2).
Proof.
  apply (reindexPhotos_idempotent
           Samples.sharp Samples.basename Samples.basename_ext Samples.extname
           Samples.join Samples.toLowerCase Samples.encode Samples.readdirNotes
           Samples.DATA_DIR ["notes.txt"; "good.jpg"]%string 1 Samples.emptyStore).
  - exact sample_listing_plain.
  - reflexivity.
  - vm_compute. reflexivity.
Defined.

(** X7 on the empty store. *)
Lemma handleRebuildAtlas_without_photos_witness :
  (Photos.handleRebuildAtlas Samples.extname Samples.join Samples.resizeTile
     Samples.DATA_DIR Samples.emptyStore).1
  = {| status := 500; body := ErrorBody "No photos available to build atlas" |}.
Proof.
  destruct (handleRebuildAtlas_without_photos
              Samples.extname Samples.join Samples.resizeTile Samples.DATA_DIR
              Samples.emptyStore eq_refl) as [H _].
  by rewrite H.
Defined.

(** X8 on the store of two photos. *)
Lemma buildAtlas_tiles_do_not_overlap_witness :
  exists s' doc,
    buildAtlas Samples.twoPhotos = (Ok tt, s') /\ atlas_json s' = Some doc /\
    NoDup ((fun tile => (tile_x tile, tile_y tile)) <$> tiles doc) /\
    Forall (insideAtlas doc) (tiles doc).
Proof.
  destruct (buildAtlas_tiles_do_not_overlap
              Samples.extname Samples.join Samples.resizeTile Samples.DATA_DIR
              Samples.twoPhotos) as (s' & doc & Hb & Hj & Hapart & Hinside).
  - discriminate.
  - intros photo _ _. reflexivity.
  - exists s', doc. repeat split; [exact Hb|exact Hj|exact Hapart|].
    apply Hinside. cbn. lia.
Defined.

(** X9 on the store of two photos, one without variant: the row counts 2
    tiles. *)
Lemma getAtlas_after_build_witness :
  exists s' row,
    buildAtlas Samples.twoPhotos = (Ok tt, s') /\ getAtlas s' = AtlasFound row /\
    tile_count row = 2.
Proof.
  destruct (getAtlas_after_build
              Samples.extname Samples.join Samples.resizeTile Samples.DATA_DIR
              Samples.twoPhotos)
    as (s' & doc & row & Hb & _ & Hget & Hcount & _).
  - discriminate.
  - intros photo _ _. reflexivity.
  - exists s', row. split; [exact Hb|]. split; [exact Hget|]. rewrite Hcount. reflexivity.
Defined.

End ProcessSamples.

(** ** Shuffle, container size and mapper order *)

Section GlyphFacts.

Import GlyphMap GlyphSpec.





(** X11. For a positive tile size the container computed for a mask covers
    it with less than one tile to spare: in each direction the container is
    at least as large as the mask and smaller than the mask plus one tile. *)
Theorem calculateContainerSize_covers_mask (mask : GlyphMask) (tileSize : Q) :
  (0 < tileSize)%Q ->
  let size := calculateContainerSize mask tileSize in
  (inject_Z (width mask) <= size.1)%Q /\ (size.1 < inject_Z (width mask) + tileSize)%Q /\
  (inject_Z (height mask) <= size.2)%Q /\ (size.2 < inject_Z (height mask) + tileSize)%Q.
Proof.
  intros Hts. unfold calculateContainerSize. cbn [fst snd].
  assert (H : forall n : Z,
             (inject_Z n <= inject_Z (Qceiling (inject_Z n / tileSize)) * tileSize)%Q /\
             (inject_Z (Qceiling (inject_Z n / tileSize)) * tileSize
              < inject_Z n + tileSize)%Q).
  { intros n. pose proof (Qle_ceiling (inject_Z n / tileSize)) as Hle.
    pose proof (Qceiling_lt (inject_Z n / tileSize)) as Hlt.
    unfold Z.sub in Hlt.
    rewrite inject_Z_plus, inject_Z_opp in Hlt. change (inject_Z 1) with 1%Q in Hlt.
    assert (E : (inject_Z n == inject_Z n / tileSize * tileSize)%Q)
      by (field; lra).
    split.
    - rewrite E at 1. apply Qmult_le_compat_r; lra.
    - assert (Hm : ((inject_Z (Qceiling (inject_Z n / tileSize)) + - (1)) * tileSize
                    < inject_Z n / tileSize * tileSize)%Q)
        by (apply Qmult_lt_compat_r; assumption).
      rewrite <- E in Hm. lra. }
  destruct (H (width mask)), (H (height mask)). auto.
Qed.

(** X11 on the 16 x 19 sample mask with tiles of 8 pixels: 16 x 24. *)
Lemma calculateContainerSize_covers_mask_witness :
  let size := calculateContainerSize Samples.halfMask 8 in
  (inject_Z (width Samples.halfMask) <= size.1)%Q /\
  (size.1 < inject_Z (width Samples.halfMask) + 8)%Q /\
  (inject_Z (height Samples.halfMask) <= size.2)%Q /\
  (size.2 < inject_Z (height Samples.halfMask) + 8)%Q.
Proof.
  apply (calculateContainerSize_covers_mask Samples.halfMask 8). reflexivity.
Defined.

(** The cell at position [k] of the row-major grid. *)
Lemma lookup_cells (tilesX : Z) (rows : nat) (k : nat) (c : Z * Z) :
  0 < tilesX ->
  cells tilesX (Z.of_nat rows) !! k = Some c ->
  c = (Z.of_nat k / tilesX, Z.of_nat k mod tilesX) /\ Z.of_nat k < Z.of_nat rows * tilesX.
Proof.
  intros HX. revert k c. unfold cells. induction rows as [|n IH]; intros k c Hk.
  - cbn in Hk. discriminate.
  - rewrite seqZ_S, bind_app, bind_singleton in Hk. rewrite Z.add_0_l in Hk.
    assert (Hlen : length (seqZ 0 (Z.of_nat n) ≫= (fun ty => (fun tx => (ty, tx)) <$> seqZ 0 tilesX))
                   = (n * Z.to_nat tilesX)%nat).
    { pose proof (length_cells tilesX (Z.of_nat n)) as Hl. unfold cells in Hl.
      rewrite Hl. lia. }
    destruct (decide (k < n * Z.to_nat tilesX)%nat) as [Hlt|Hge].
    + rewrite lookup_app_l in Hk by lia. destruct (IH k c Hk) as [-> Hb]. split; [reflexivity|lia].
    + rewrite lookup_app_r in Hk by lia. rewrite Hlen in Hk.
      rewrite list_lookup_fmap in Hk.
      destruct (seqZ 0 tilesX !! (k - n * Z.to_nat tilesX)%nat) as [tx|] eqn:Htx; [|discriminate].
      apply lookup_seqZ in Htx as [-> Hb]. cbn in Hk. injection Hk as <-.
      assert (Hk' : Z.of_nat k = Z.of_nat n * tilesX + Z.of_nat (k - n * Z.to_nat tilesX)) by lia.
      split; [|lia]. f_equal.
      * apply (Z.div_unique _ _ _ (Z.of_nat (k - n * Z.to_nat tilesX))); lia.
      * apply (Z.mod_unique _ _ (Z.of_nat n)); lia.
Qed.

(** X12. The mapper emits the cells in row-major order: for a positive tile
    size, entry [k] of the result is the cell in column [k mod tilesX] and
    row [k div tilesX], placed at (column * tileSize, row * tileSize), and
    the cell lies inside the container computed by [calculateContainerSize]. *)
Theorem mapTilesToGlyph_row_major (Math_random : nat -> Q) (mask : GlyphMask)
    (atlasData : Photos.AtlasData) (tileSize : Q) (k : nat) (m : TileMapping) :
  (0 < tileSize)%Q ->
  mapTilesToGlyph Math_random mask atlasData tileSize !! k = Some m ->
  let tilesX := Qceiling (inject_Z (width mask) / tileSize) in
  let size := calculateContainerSize mask tileSize in
  x m = (inject_Z (Z.of_nat k mod tilesX) * tileSize)%Q /\
  y m = (inject_Z (Z.of_nat k / tilesX) * tileSize)%Q /\
  (0 <= x m)%Q /\ (x m + tileSize <= size.1)%Q /\
  (0 <= y m)%Q /\ (y m + tileSize <= size.2)%Q.
Proof.
  intros Hts Hk tilesX size.
  rewrite mapTilesToGlyph_assignment in Hk. fold tilesX in Hk.
  rewrite list_lookup_imap in Hk.
  destruct (cells tilesX _ !! k) as [c|] eqn:Hc; [|discriminate].
  cbn in Hk. injection Hk as <-. cbn [x y assignment].
  pose proof (list_elem_of_lookup_2 _ _ _ Hc) as Hin.
  apply elem_of_cells in Hin as [Hty Htx].
  set (tilesY := Qceiling (inject_Z (height mask) / tileSize)) in *.
  assert (HX : 0 < tilesX) by lia.
  replace tilesY with (Z.of_nat (Z.to_nat tilesY)) in Hc by lia.
  destruct (lookup_cells tilesX _ k c HX Hc) as [-> _]. cbn [fst snd] in *.
  split; [reflexivity|]. split; [reflexivity|].
  subst size. unfold calculateContainerSize. cbn [fst snd]. fold tilesX tilesY.
  assert (Hq : forall a b : Z, 0 <= a < b ->
            (0 <= inject_Z a * tileSize)%Q /\
            (inject_Z a * tileSize + tileSize <= inject_Z b * tileSize)%Q).
  { intros a b Hab.
    assert (H0 : (0 <= inject_Z a)%Q) by (change 0%Q with (inject_Z 0); rewrite <- Zle_Qle; lia).
    assert (H1 : (inject_Z a + 1 <= inject_Z b)%Q).
    { change 1%Q with (inject_Z 1). rewrite <- inject_Z_plus, <- Zle_Qle. lia. }
    split; [apply Qmult_le_0_compat; lra|].
    assert (Hm : ((inject_Z a + 1) * tileSize <= inject_Z b * tileSize)%Q)
      by (apply Qmult_le_compat_r; lra).
    lra. }
  destruct (Hq _ _ Htx), (Hq _ _ Hty). auto.
Qed.

(** X12 on the sample mask: entry 3 is the cell in column 1 of row 1. *)
Lemma mapTilesToGlyph_row_major_witness :
  exists m,
    mapTilesToGlyph Samples.threeQuarters Samples.halfMask Samples.twoTiles 8 !! 3%nat
    = Some m /\ (x m == 8)%Q /\ (y m == 8)%Q.
Proof.
  destruct (mapTilesToGlyph Samples.threeQuarters Samples.halfMask Samples.twoTiles 8
              !! 3%nat) as [m|] eqn:Hm; [|vm_compute in Hm; discriminate].
  exists m. split; [reflexivity|].
  destruct (mapTilesToGlyph_row_major Samples.threeQuarters Samples.halfMask
              Samples.twoTiles 8 3 m eq_refl Hm) as (Hx & Hy & _).
  rewrite Hx, Hy. split; vm_compute; reflexivity.
Defined.

Lemma take_flags (mask : GlyphMask) (n : Z) (tileSize : Q) (grid : list (Z * Z))
    (fg : bool) :
  forall k : nat,
  length (filter (fun m => isForeground m = fg)
                 (take k (imap (assignment mask n n tileSize grid) grid)))
  = length (filter (fun c => sampledForeground mask tileSize c = fg) (take k grid)).
Proof.
  induction k as [|k IH]; [reflexivity|].
  destruct (grid !! k) as [c|] eqn:Hc.
  - rewrite (take_S_r grid k c Hc).
    rewrite (take_S_r _ k (assignment mask n n tileSize grid k c))
      by (by rewrite list_lookup_imap, Hc).
    rewrite !filter_app, !length_app, IH. f_equal.
    rewrite !filter_cons, !filter_nil. cbn [assignment isForeground].
    by destruct (decide (sampledForeground mask tileSize c = fg)).
  - apply lookup_ge_None in Hc.
    rewrite (take_ge grid (S k)) by lia.
    rewrite (take_ge (imap _ grid) (S k)) by (rewrite length_imap; lia).
    rewrite (take_ge grid k) in IH by lia.
    rewrite (take_ge (imap _ grid) k) in IH by (rewrite length_imap; lia).
    exact IH.
Qed.

(** X13. Each kind of cell draws its indices round-robin: the index of an
    entry is the number of earlier entries with the same foreground flag,
    modulo the number of tiles of the atlas (not a number when the atlas
    has no tile).  The tile size is positive. *)
Theorem mapTilesToGlyph_round_robin (Math_random : nat -> Q) (mask : GlyphMask)
    (atlasData : Photos.AtlasData) (tileSize : Q) (k : nat) (m : TileMapping) :
  (0 < tileSize)%Q ->
  let result := mapTilesToGlyph Math_random mask atlasData tileSize in
  result !! k = Some m ->
  tileIndex m
  = js_mod (Z.of_nat (length (filter (fun m' => isForeground m' = isForeground m)
                                     (take k result))))
           (Z.of_nat (length (Photos.tiles atlasData))).
Proof.
  intros _ result Hk. subst result. rewrite mapTilesToGlyph_assignment in *.
  rewrite list_lookup_imap in Hk.
  destruct (cells _ _ !! k) as [c|] eqn:Hc; [|discriminate].
  cbn in Hk. injection Hk as <-. cbn [tileIndex isForeground assignment].
  rewrite take_flags. unfold drawn.
  by destruct (sampledForeground mask tileSize c).
Qed.

(** X13 on the sample mask and the two-tile atlas: entry 4, the third
    foreground cell, wraps around to index 0. *)
Lemma mapTilesToGlyph_round_robin_witness :
  exists m,
    mapTilesToGlyph Samples.threeQuarters Samples.halfMask Samples.twoTiles 8 !! 4%nat
    = Some m /\ tileIndex m = Idx 0.
Proof.
  destruct (mapTilesToGlyph Samples.threeQuarters Samples.halfMask Samples.twoTiles 8
              !! 4%nat) as [m|] eqn:Hm; [|vm_compute in Hm; discriminate].
  exists m. split; [reflexivity|].
  rewrite (mapTilesToGlyph_round_robin Samples.threeQuarters Samples.halfMask
             Samples.twoTiles 8 4 m eq_refl Hm).
  assert (Hfg : isForeground m = true).
  { apply (f_equal (fmap isForeground)) in Hm. vm_compute in Hm. by injection Hm. }
  rewrite Hfg. vm_compute. reflexivity.
Defined.

(** X14. A mask returned by [generateTextMask] is a binary grid: it has one
    pixel per position of its width x height grid and every pixel is 0 or 1. *)
Theorem generateTextMask_binary (canvas : Canvas) (text : string) (scale : Q)
    (fontFamily : string) (mask : GlyphMask) :
  generateTextMask canvas text scale fontFamily = Ok mask ->
  wellFormed mask /\ 0 <= width mask * height mask /\
  Forall (fun p => p = 0 \/ p = 1) (pixels mask).
Proof.
  unfold generateTextMask. destruct (negb _); [discriminate|].
  destruct (getImageData _ _ _ _ _ _) as [data|e]; [|discriminate].
  match goal with |- context [?a <? 0] => destruct (Z.ltb_spec a 0) end; [discriminate|].
  intros [= <-]. unfold wellFormed. cbn [width height pixels].
  split; [by rewrite length_fmap, length_seqZ|]. split; [assumption|].
  apply Forall_fmap, Forall_forall. intros i _. cbn. unfold alphaBit.
  destruct (js_get data (i * 4 + 3)) as [a|]; [|by left].
  destruct (128 <? a); auto.
Qed.

(** X14 on the sample mask. *)
Lemma generateTextMask_binary_witness :
  wellFormed Samples.halfMask /\ Forall (fun p => p = 0 \/ p = 1) (pixels Samples.halfMask).
Proof.
  destruct (generateTextMask_binary Samples.halfCanvas "PAPA" (1 # 10) Samples.FONT
              Samples.halfMask) as (Hwf & _ & Hbin).
  - vm_compute. reflexivity.
  - split; assumption.
Defined.

End GlyphFacts.

(** ** Scene construction and hover *)

Section TickerFacts.

Import PixiTicker SceneSpec.

Variable canvas : GlyphMap.Canvas.
Variable Math_random : nat -> Q.

(** The side table holds the rest state of exactly the sprites of the list. *)
Local Abbreviation tableComplete sprites table :=
  (forall i : nat, (table : gmap nat SpriteData) !! i
                   = restStateOf <$> (sprites : list Sprite) !! i).

Lemma tableComplete_snoc (sprites : list Sprite) (table : gmap nat SpriteData)
    (sprite : Sprite) :
  tableComplete sprites table ->
  tableComplete (sprites ++ [sprite]) (<[length sprites := restStateOf sprite]> table).
Proof.
  intros H i. destruct (decide (i = length sprites)) as [->|Hne].
  - rewrite lookup_insert_eq, lookup_app_r by lia. by rewrite Nat.sub_diag.
  - rewrite lookup_insert_ne by congruence. rewrite H.
    destruct (decide (i < length sprites)%nat) as [Hlt|Hge].
    + by rewrite lookup_app_l.
    + rewrite (lookup_ge_None_2 sprites) by lia.
      rewrite lookup_ge_None_2; [reflexivity|]. rewrite length_app. cbn. lia.
Qed.

Lemma foldl_addSprite_table (atlasData : Photos.AtlasData) (tileSize : Z) (offsetY : Q)
    (mappings : list GlyphMap.TileMapping) :
  forall acc : list Sprite * gmap nat SpriteData,
  tableComplete acc.1 acc.2 ->
  tableComplete (foldl (addSprite atlasData tileSize offsetY) acc mappings).1
                (foldl (addSprite atlasData tileSize offsetY) acc mappings).2.
Proof.
  induction mappings as [|m mappings IH]; intros acc Hacc; [exact Hacc|].
  cbn [foldl]. apply IH. unfold addSprite. cbn [fst snd].
  exact (tableComplete_snoc _ _ _ Hacc).
Qed.

Lemma foldl_addDuplicate_table (width : Q) (originals : list Sprite) :
  forall acc : list Sprite * gmap nat SpriteData,
  tableComplete acc.1 acc.2 ->
  tableComplete (foldl (addDuplicate width) acc originals).1
                (foldl (addDuplicate width) acc originals).2.
Proof.
  induction originals as [|sprite originals IH]; intros acc Hacc; [exact Hacc|].
  cbn [foldl]. apply IH. unfold addDuplicate. cbn [fst snd].
  exact (tableComplete_snoc _ _ _ Hacc).
Qed.

(** X15. Scene construction on a ticker without sprites, for a tile size of
    at least 1, records the rest state of every sprite it creates, original
    or duplicate, and of nothing else: the side table has an entry exactly
    for the positions of the sprite list, holding the sprite's x, y and
    scale and z-index 0. *)
Theorem createScene_saves_rest_state (t : Ticker) (screen : Screen)
    (atlasData : Photos.AtlasData) (mask : GlyphMap.GlyphMask) :
  app t = Some screen -> atlas t = Some atlasData ->
  sprites t = [] -> originalSpriteData t = ∅ ->
  GlyphMap.generateTextMask canvas (text (config t)) (glyphScale (config t)) FONT_FAMILY
  = Ok mask ->
  1 <= GlyphMap.calculateTileSize (screen_width screen) (tileBaseVw (config t)) ->
  exists t',
    createScene canvas Math_random t = Ok t' /\
    forall i : nat, originalSpriteData t' !! i = restStateOf <$> sprites t' !! i.
Proof.
  intros Happ Hatlas Hs Hd Hmask _. unfold createScene.
  rewrite Happ, Hatlas, Hmask. cbn zeta. eexists. split; [reflexivity|].
  cbn [set_overlay set_scene sprites originalSpriteData].
  unfold duplicateContainerForLoop.
  apply foldl_addDuplicate_table, foldl_addSprite_table.
  cbn [fst snd]. intros i. by rewrite Hs, Hd, lookup_empty.
Qed.

Lemma Qceiling_pos (q : Q) : (0 < q)%Q -> 1 <= Qceiling q.
Proof.
  intros Hq. pose proof (Qle_ceiling q) as Hc.
  assert (H : (0 < inject_Z (Qceiling q))%Q) by lra.
  change 0%Q with (inject_Z 0) in H. rewrite <- Zlt_Qlt in H. lia.
Qed.

(** X16. A scene built on a ticker without sprites, for a mask at least one
    pixel wide and high and a tile size of at least 1, holds every mapped
    sprite once and its duplicate once, and its loop width is the container
    width plus the gap of 100. *)
Theorem createScene_loop_width (t : Ticker) (screen : Screen)
    (atlasData : Photos.AtlasData) (mask : GlyphMap.GlyphMask) :
  app t = Some screen -> atlas t = Some atlasData -> sprites t = [] ->
  GlyphMap.generateTextMask canvas (text (config t)) (glyphScale (config t)) FONT_FAMILY
  = Ok mask ->
  1 <= GlyphMap.width mask -> 1 <= GlyphMap.height mask ->
  let tileSize := GlyphMap.calculateTileSize (screen_width screen) (tileBaseVw (config t)) in
  1 <= tileSize ->
  exists t',
    createScene canvas Math_random t = Ok t' /\
    length (sprites t')
    = (2 * length (GlyphMap.mapTilesToGlyph Math_random mask atlasData (inject_Z tileSize)))%nat /\
    (getLoopWidth t'
     == (GlyphMap.calculateContainerSize mask (inject_Z tileSize)).1 + 100)%Q.
Proof.
  intros Happ Hatlas Hs Hmask Hw Hh tileSize Hts.
  destruct (createScene canvas Math_random t) as [t'|e] eqn:Hscene.
  2:{ unfold createScene in Hscene. rewrite Happ, Hatlas, Hmask in Hscene. discriminate. }
  exists t'. split; [reflexivity|].
  pose proof (createScene_sprites canvas Math_random t t' screen atlasData mask
                Happ Hatlas Hs Hmask Hscene) as Hsprites.
  cbn zeta in Hsprites. fold tileSize in Hsprites.
  assert (HtsQ : (0 < inject_Z tileSize)%Q).
  { change 0%Q with (inject_Z 0). rewrite <- Zlt_Qlt. lia. }
  assert (Hpos : forall n : Z, 1 <= n -> (0 < inject_Z n / inject_Z tileSize)%Q).
  { intros n Hn. apply Qlt_shift_div_l; [exact HtsQ|]. rewrite Qmult_0_l.
    change 0%Q with (inject_Z 0). rewrite <- Zlt_Qlt. lia. }
  pose proof (Qceiling_pos _ (Hpos _ Hw)) as HX.
  pose proof (Qceiling_pos _ (Hpos _ Hh)) as HY.
  split.
  { rewrite Hsprites, length_app, !length_fmap. lia. }
  apply (getLoopWidth_duplicated t' _ _ Hsprites).
  - intros Hnil. apply (f_equal length) in Hnil. rewrite length_fmap in Hnil.
    rewrite mapTilesToGlyph_assignment, length_imap, length_cells in Hnil.
    cbn [length] in Hnil. nia.
  - unfold GlyphMap.calculateContainerSize. cbn [fst].
    apply Qmult_le_0_compat; [|lra].
    change 0%Q with (inject_Z 0). rewrite <- Zle_Qle. lia.
Qed.

End TickerFacts.

Section HoverMore.

Import PixiTicker SceneSpec.

Lemma runFrame_keeps (now : Q) (t : Ticker) :
  isScrolling (runFrame now t) = isScrolling t /\
  scrollOffset (runFrame now t) = scrollOffset t /\
  container (runFrame now t) = container t /\
  hoveredSprite (runFrame now t) = hoveredSprite t /\
  timeouts (runFrame now t) = timeouts t /\
  app (runFrame now t) = app t.
Proof.
  unfold runFrame.
  assert (H : forall queue t0,
    let t1 := foldl (fun t a => animationFrame now a t) t0 queue in
    isScrolling t1 = isScrolling t0 /\ scrollOffset t1 = scrollOffset t0 /\
    container t1 = container t0 /\ hoveredSprite t1 = hoveredSprite t0 /\
    timeouts t1 = timeouts t0 /\ app t1 = app t0).
  { induction queue as [|a queue IH]; intros t0; [by cbn|].
    cbn [foldl]. destruct (IH (animationFrame now a t0)) as (H1 & H2 & H3 & H4 & H5 & H6).
    cbn zeta. rewrite H1, H2, H3, H4, H5, H6.
    unfold animationFrame. cbn zeta. destruct (Qltb _ 1); by cbn. }
  destruct (H (frameCallbacks t) (set_frameCallbacks [] t)) as (H1 & H2 & H3 & H4 & H5 & H6).
  cbn zeta in *. rewrite H1, H2, H3, H4, H5, H6. by cbn.
Qed.

Lemma animate_paused (now : Q) (t : Ticker) :
  isScrolling t = false ->
  isScrolling (animate now t) = false /\
  scrollOffset (animate now t) = scrollOffset t /\
  container (animate now t) = container t /\
  hoveredSprite (animate now t) = hoveredSprite t /\
  timeouts (animate now t) = timeouts t /\
  app (animate now t) = app t.
Proof.
  intros Hp. unfold animate.
  destruct (app t) as [screen|] eqn:Happ; [|by rewrite Hp].
  destruct (container t) as [c|] eqn:Hc; [|by rewrite Hp].
  cbn zeta. destruct (Qle_bool 1 _); cbn [set_fps isScrolling]; rewrite Hp; cbn;
    rewrite ?Happ, ?Hc; repeat split; auto.
Qed.

(** X17. Hover pauses scrolling: from the moment a sprite is hovered, with
    no resume timer pending, ticks, animation frames and timers leave the
    scroll offset and the container position where they were, for as long
    as no other pointer event arrives. *)
Theorem hover_pauses_scrolling (t : Ticker) (i : nat) (now : Q) (events : list Event) :
  is_Some (sprites t !! i) -> is_Some (app t) -> hoveredSprite t <> Some i ->
  timeouts t = [] ->
  Forall noPointer events ->
  let t' := run (handleHoverStart now i t) events in
  isScrolling t' = false /\ scrollOffset t' = scrollOffset t /\
  container t' = container t /\ hoveredSprite t' = Some i.
Proof.
  intros [sprite Hsprite] [screen Happ] Hhover Htimers Hevents.
  rewrite (handleHoverStart_state now i t sprite screen Happ Hsprite Hhover).
  match goal with |- context [run ?t0 events] => set (t0' := t0) end.
  assert (H0 : isScrolling t0' = false /\ scrollOffset t0' = scrollOffset t /\
               container t0' = container t /\ hoveredSprite t0' = Some i /\
               timeouts t0' = [] /\ app t0' = app t).
  { subst t0'. cbn. repeat split; auto. }
  clearbody t0'. revert t0' H0. unfold run.
  induction Hevents as [|e events He _ IH]; intros t0 (H1 & H2 & H3 & H4 & H5 & H6).
  - cbn. repeat split; auto.
  - cbn [foldl]. apply IH. destruct e as [n|n|n j|n|n]; try contradiction; cbn [step].
    + destruct (animate_paused n t0 H1) as (A1 & A2 & A3 & A4 & A5 & A6).
      rewrite A1, A2, A3, A4, A5, A6. repeat split; auto.
    + destruct (runFrame_keeps n t0) as (A1 & A2 & A3 & A4 & A5 & A6).
      rewrite A1, A2, A3, A4, A5, A6. repeat split; auto.
    + unfold runTimeouts. rewrite H5. cbn. repeat split; auto.
Qed.

(** X18. Scrolling resumes only after the delay: after a hover ends at time
    [n], with no other timer pending, a timer check before [n + 300] leaves
    the paused ticker paused, and a check at or after [n + 300] resumes
    scrolling and clears the timer. *)
Theorem scrolling_resumes_after_delay (t : Ticker) (i : nat) (n now : Q) :
  hoveredSprite t = Some i -> timeouts t = [] -> isScrolling t = false ->
  let t' := runTimeouts now (handleHoverEnd n t) in
  ((now < n + 300)%Q -> isScrolling t' = false) /\
  ((n + 300 <= now)%Q -> isScrolling t' = true /\ timeouts t' = []) /\
  hoveredSprite t' = None.
Proof.
  intros Hhover Htimers Hpaused t'. subst t'.
  unfold handleHoverEnd. rewrite Hhover.
  assert (Hshape : forall t1, timeouts t1 = [] -> isScrolling t1 = false ->
    let t2 := runTimeouts now
                (set_timeouts (timeouts
                   (set_overlay ((fun o => (false, o.2)) <$> overlay
                      (set_hoveredSprite None (update_sprite i (set_zIndex 0) t1)))
                      (set_hoveredSprite None (update_sprite i (set_zIndex 0) t1)))
                   ++ [(n + 300)%Q])
                   (set_overlay ((fun o => (false, o.2)) <$> overlay
                      (set_hoveredSprite None (update_sprite i (set_zIndex 0) t1)))
                      (set_hoveredSprite None (update_sprite i (set_zIndex 0) t1)))) in
    ((now < n + 300)%Q -> isScrolling t2 = false) /\
    ((n + 300 <= now)%Q -> isScrolling t2 = true /\ timeouts t2 = []) /\
    hoveredSprite t2 = None).
  { intros t1 Ht1 Hp1. unfold runTimeouts. cbn [timeouts set_timeouts set_overlay
      set_hoveredSprite update_sprite set_sprites]. rewrite Ht1. cbn [Datatypes.app].
    rewrite !filter_cons, !filter_nil. cbn beta.
    destruct (Qle_bool (n + 300) now) eqn:E.
    - apply Qle_bool_iff in E. cbn.
      split; [intros Hlt; lra|]. auto.
    - assert (Hlt : ~ (n + 300 <= now)%Q) by (intros Hle; apply Qle_bool_iff in Hle; congruence).
      cbn. split; [auto|]. split; [intros Hle; contradiction|reflexivity]. }
  destruct (originalSpriteData t !! i) as [original|].
  - apply Hshape.
    + unfold animateSprite. destruct (sprites t !! i); cbn; exact Htimers.
    + unfold animateSprite. destruct (sprites t !! i); cbn; exact Hpaused.
  - by apply Hshape.
Qed.

(** The eased progress of a progress in [0, 1] is in [0, 1]. *)
Lemma ease_range (p : Q) :
  (0 <= p)%Q -> (p <= 1)%Q -> (0 <= ease p)%Q /\ (ease p <= 1)%Q.
Proof.
  intros H0 H1. unfold ease. destruct (Qltb p (1 # 2)) eqn:E.
  - apply Qltb_lt in E.
    assert (H2 : (0 <= p * p)%Q) by (apply Qmult_le_0_compat; lra).
    assert (H2' : (p * p <= 1 # 4)%Q) by nra.
    assert (H3 : (0 <= p * p * p)%Q) by (apply Qmult_le_0_compat; lra).
    assert (H3' : (p * p * p <= 1 # 8)%Q) by nra.
    split; lra.
  - apply Qltb_ge in E. set (u := (-2 * p + 2)%Q).
    assert (Hu0 : (0 <= u)%Q) by (subst u; lra).
    assert (Hu1 : (u <= 1)%Q) by (subst u; lra).
    clearbody u.
    assert (H2 : (0 <= u * u)%Q) by (apply Qmult_le_0_compat; lra).
    assert (H2' : (u * u <= 1)%Q) by nra.
    assert (H3 : (0 <= u * u * u)%Q) by (apply Qmult_le_0_compat; lra).
    assert (H3' : (u * u * u <= 1)%Q) by nra.
    unfold Qdiv. change (/ 2)%Q with (1 # 2)%Q. split; lra.
Qed.

Lemma lerp_between (a b e : Q) :
  (0 <= e)%Q -> (e <= 1)%Q -> between a b (a + (b - a) * e).
Proof.
  intros H0 H1. unfold between.
  destruct (Qlt_le_dec a b) as [Hab|Hba].
  - rewrite (Q.min_l a b), (Q.max_r a b) by lra.
    assert (Ha : (0 <= (b - a) * e)%Q) by (apply Qmult_le_0_compat; lra).
    assert (Hb : (0 <= (b - a) * (1 - e))%Q) by (apply Qmult_le_0_compat; lra).
    split; lra.
  - rewrite (Q.min_r a b), (Q.max_l a b) by lra.
    assert (Ha : (0 <= (a - b) * e)%Q) by (apply Qmult_le_0_compat; lra).
    assert (Hb : (0 <= (a - b) * (1 - e))%Q) by (apply Qmult_le_0_compat; lra).
    split; lra.
Qed.

(** X19. A running animation never overshoots: at a frame at or after the
    start of the animation, each animated property of the sprite lies
    between its value at the start and its target. *)
Theorem animationFrame_between (now : Q) (a : Animation) (t : Ticker) (sprite : Sprite)
    (to_x to_y to_scale : Q) :
  (0 < props_duration a)%Q -> (anim_start a <= now)%Q ->
  props_x a = Some to_x -> props_y a = Some to_y -> props_scale a = Some to_scale ->
  sprites t !! anim_sprite a = Some sprite ->
  exists sprite',
    sprites (animationFrame now a t) !! anim_sprite a = Some sprite'
    /\ between (startX a) to_x (x sprite')
    /\ between (startY a) to_y (y sprite')
    /\ between (startScale a) to_scale (scale sprite').
Proof.
  intros Hd Hnow Hx Hy Hs Hsprite.
  set (p := Qmin ((now - anim_start a) / props_duration a) 1).
  assert (Hp0 : (0 <= p)%Q).
  { subst p. apply Q.min_glb; [|lra]. apply Qle_shift_div_l; lra. }
  assert (Hp1 : (p <= 1)%Q) by (subst p; apply Q.le_min_r).
  destruct (ease_range p Hp0 Hp1) as [He0 He1].
  unfold animationFrame. cbn zeta. fold p. rewrite Hx, Hy, Hs.
  cbn [fmap option_fmap option_map].
  exists (set_xy_scale (Some (startX a + (to_x - startX a) * ease p)%Q)
                       (Some (startY a + (to_y - startY a) * ease p)%Q)
                       (Some (startScale a + (to_scale - startScale a) * ease p)%Q)
                       sprite).
  split.
  - destruct (Qltb p 1); unfold update_sprite;
      cbn [sprites set_frameCallbacks set_sprites];
      by rewrite list_lookup_alter_eq, Hsprite.
  - cbn [set_xy_scale x y scale default]. unfold id.
    repeat split; apply lerp_between; assumption.
Qed.

(** X20. A resume timer is never cancelled: when a hover ends at time [n]
    and a sprite is hovered again before the timer of that hover end is due,
    the timer still fires and scrolling resumes while the sprite is
    hovered. *)
Theorem resume_timer_fires_during_next_hover (t : Ticker) (i j : nat) (sprite : Sprite)
    (screen : Screen) (n m now : Q) :
  hoveredSprite t = Some i -> sprites t !! j = Some sprite -> app t = Some screen ->
  (n + 300 <= now)%Q ->
  let t' := run t [HoverEnd n; HoverStart m j; Timeout now] in
  hoveredSprite t' = Some j /\ isScrolling t' = true.
Proof.
  intros Hhover Hsprite Happ Hdue t'. subst t'. unfold run. cbn [foldl step].
  set (t1 := handleHoverEnd n t).
  assert (H1 : hoveredSprite t1 = None /\ app t1 = Some screen /\
               timeouts t1 = timeouts t ++ [(n + 300)%Q] /\
               is_Some (sprites t1 !! j)).
  { subst t1. unfold handleHoverEnd. rewrite Hhover.
    assert (Hlook : forall l : list Sprite, l !! j = Some sprite ->
                                            is_Some (alter (set_zIndex 0) i l !! j)).
    { intros l Hl. destruct (decide (i = j)) as [->|Hne].
      - rewrite list_lookup_alter_eq, Hl. by eexists.
      - rewrite list_lookup_alter_ne by exact Hne. by eexists. }
    destruct (originalSpriteData t !! i) as [original|]; unfold animateSprite;
      [destruct (sprites t !! i)|];
      cbn; rewrite ?Happ; repeat split; auto. }
  destruct H1 as (Hh1 & Happ1 & Htimers1 & [sprite1 Hsprite1]).
  rewrite (handleHoverStart_state m j t1 sprite1 screen Happ1 Hsprite1)
    by (rewrite Hh1; discriminate).
  clearbody t1. unfold runTimeouts.
  cbn [timeouts set_frameCallbacks set_hoveredSprite update_sprite set_sprites
       set_overlay set_isScrolling].
  rewrite Htimers1, filter_app, filter_cons, filter_nil.
  rewrite decide_True by (by apply Qle_bool_iff).
  destruct (filter _ (timeouts t)); by cbn.
Qed.

End HoverMore.

(** ** The sample scene *)

Section TickerSamples.

Import PixiTicker SceneSpec.

Local Abbreviation fresh :=
  (set_loaded Samples.screen Samples.twoTiles (new_ticker Samples.config 0)).

Local Abbreviation hovered := (handleHoverStart 1100 0 Samples.scene).

(** X15 on the sample ticker. *)
Lemma createScene_saves_rest_state_witness :
  exists t',
    createScene Samples.halfCanvas Samples.threeQuarters fresh = Ok t' /\
    forall i : nat, originalSpriteData t' !! i = restStateOf <$> sprites t' !! i.
Proof.
  apply (createScene_saves_rest_state Samples.halfCanvas Samples.threeQuarters fresh
           Samples.screen Samples.twoTiles Samples.halfMask);
    try reflexivity.
  vm_compute. discriminate.
Defined.

(** X16 on the sample ticker: 12 sprites and a loop width of 116. *)
Lemma createScene_loop_width_witness :
  exists t',
    createScene Samples.halfCanvas Samples.threeQuarters fresh = Ok t' /\
    length (sprites t') = 12%nat /\ (getLoopWidth t' == 116)%Q.
Proof.
  destruct (createScene_loop_width Samples.halfCanvas Samples.threeQuarters fresh
              Samples.screen Samples.twoTiles Samples.halfMask)
    as (t' & Hscene & Hlen & Hloop); try reflexivity; try (vm_compute; discriminate).
  exists t'. split; [exact Hscene|]. split; [rewrite Hlen; reflexivity|].
  rewrite Hloop. reflexivity.
Defined.

(** X17 on the sample scene: sprite 0 is hovered, then a tick, a frame and a
    timer check. *)
Lemma hover_pauses_scrolling_witness :
  let t' := run hovered [Tick 1200; Frame 1300; Timeout 1400] in
  isScrolling t' = false /\ scrollOffset t' = scrollOffset Samples.scene.
Proof.
  destruct (hover_pauses_scrolling Samples.scene 0 1100
              [Tick 1200; Frame 1300; Timeout 1400]) as (Hp & Ho & _).
  - eexists. vm_compute. reflexivity.
  - eexists. reflexivity.
  - vm_compute. discriminate.
  - reflexivity.
  - repeat constructor.
  - split; [exact Hp|exact Ho].
Defined.

(** X18 on the sample scene: the hover of sprite 0 ends at 2000. *)
Lemma scrolling_resumes_after_delay_witness :
  isScrolling (runTimeouts 2300 (handleHoverEnd 2000 hovered)) = true.
Proof.
  destruct (scrolling_resumes_after_delay hovered 0 2000 2300) as (_ & Hresume & _).
  - reflexivity.
  - reflexivity.
  - reflexivity.
  - apply Hresume. vm_compute. discriminate.
Defined.

(** X19 on the sample scene: a zoom of sprite 0 towards x = 80, a third of
    the way. *)
Lemma animationFrame_between_witness :
  let a := {| anim_sprite := 0; anim_start := 1100;
              startScale := 1; startX := 0; startY := 138;
              props_scale := Some 30%Q; props_x := Some 80%Q; props_y := Some 30%Q;
              props_duration := 300 |} in
  exists sprite',
    sprites (animationFrame 1200 a Samples.scene) !! 0%nat = Some sprite' /\
    between 0 80 (x sprite').
Proof.
  intros a.
  destruct (sprites Samples.scene !! 0%nat) as [sprite|] eqn:Hs;
    [|vm_compute in Hs; discriminate].
  destruct (animationFrame_between 1200 a Samples.scene sprite 80 30 30)
    as (sprite' & Hl & Hx & _).
  - reflexivity.
  - vm_compute. discriminate.
  - reflexivity.
  - reflexivity.
  - reflexivity.
  - exact Hs.
  - exists sprite'. split; [exact Hl|exact Hx].
Defined.

(** X20 on the sample scene: the hover of sprite 0 ends at 2000, sprite 1 is
    hovered at 2100 and the timer fires at 2300. *)
Lemma resume_timer_fires_during_next_hover_witness :
  let t' := run hovered [HoverEnd 2000; HoverStart 2100 1; Timeout 2300] in
  hoveredSprite t' = Some 1%nat /\ isScrolling t' = true.
Proof.
  destruct (sprites hovered !! 1%nat) as [sprite|] eqn:Hs;
    [|vm_compute in Hs; discriminate].
  apply (resume_timer_fires_during_next_hover hovered 0 1 sprite Samples.screen
           2000 2100 2300).
  - reflexivity.
  - exact Hs.
  - reflexivity.
  - vm_compute. discriminate.
Defined.

End TickerSamples.

